(** * Homa core: Receiver and Transport operation life cycle

    A shallow embedding of [src/Receiver.cc] (the Receiver, translated from
    the C++ source) and of the parts of the Transport that the repository
    only declares and tests ([src/Transport.h], [src/TransportTest.cc]).

    Pointers are handles into finite maps: an [InboundMessage*] is a key of
    the Receiver's [messagePool], an [OpContext*] is a key of the map of
    live operation contexts.  Calls on the collaborators (driver, scheduler,
    sender) are recorded in logs, the way the mock objects of the tests
    observe them.  The code is taken with its assertions enabled: a failed
    [assert] and a dereference of a dangling or null pointer are explicit
    outcomes of a call.  Locks are not modelled; calls are sequential. *)

From stdpp Require Import gmap strings list fin_maps.

Local Open Scope Z_scope.

(** ** Machine integers *)

Definition wrap16 (z : Z) : Z := z mod 2 ^ 16.
Definition wrap32 (z : Z) : Z := z mod 2 ^ 32.

(** ** Protocol *)

Module Protocol.

(** [Protocol::MessageId]: (transport-id, op-sequence, tag). *)
Record MessageId := mkMessageId {
  transportId : Z;
  sequence : Z;
  tag : Z;
}.

#[global] Instance MessageId_eq_dec : EqDecision MessageId.
Proof. solve_decision. Defined.

#[global] Instance MessageId_countable : Countable MessageId.
Proof.
  apply (inj_countable' (λ i, (transportId i, sequence i, tag i))
                        (λ t, mkMessageId t.1.1 t.1.2 t.2)).
  by intros [].
Defined.

(** [Protocol::Packet::DataHeader]: the common header's message id, the
    packet's index within the message and the message's total length. *)
Record DataHeader := mkDataHeader {
  messageId : MessageId;
  index : Z;
  totalLength : Z;
}.

#[global] Instance DataHeader_eq_dec : EqDecision DataHeader.
Proof. solve_decision. Defined.

(** Opcodes of the common header. *)
Inductive Opcode := DATA | GRANT | DONE.

#[global] Instance Opcode_eq_dec : EqDecision Opcode.
Proof. solve_decision. Defined.

(** Constants of [Protocol.h], which is not among the sources: the size of
    a DATA header, the width in bits of a tag and the two sentinel
    tags. *)
Class Constants := {
  sizeof_DataHeader : Z;
  TAG_BITS : Z;
  INITIAL_REQUEST_TAG : Z;
  ULTIMATE_RESPONSE_TAG : Z;
}.

(** [tag++] and [tag--] on the tag's unsigned type. *)
Definition tag_incr {C : Constants} (t : Z) : Z := (t + 1) mod 2 ^ TAG_BITS.
Definition tag_decr {C : Constants} (t : Z) : Z := (t - 1) mod 2 ^ TAG_BITS.

Definition set_tag (t : Z) (i : MessageId) : MessageId :=
  {| transportId := transportId i; sequence := sequence i; tag := t |}.

End Protocol.

Export Protocol.

(** ** Driver *)

Module Driver.

(** A [Driver::Address] object: its identity and what [toString()]
    returns for it. *)
Record Address := mkAddress {
  addressId : nat;
  toString : string;
}.

#[global] Instance Address_eq_dec : EqDecision Address.
Proof. solve_decision. Defined.

(** A [Driver::Packet]: the buffer's identity, the (transient) address it
    came from, and the DATA header at the start of its payload. *)
Record Packet := mkPacket {
  packetId : nat;
  address : Address;
  payload : DataHeader;
}.

#[global] Instance Packet_eq_dec : EqDecision Packet.
Proof. solve_decision. Defined.

(** Calls on the driver that change its state, as a mock records them:
    the buffer concerned and, for a send, the opcode and the message id
    written to the buffer's header. *)
Inductive Call :=
| allocPacket (p : nat)
| sendPackets (p : nat) (opcode : Opcode) (id : MessageId)
| releasePackets (p : nat).

#[global] Instance Call_eq_dec : EqDecision Call.
Proof. solve_decision. Defined.

(** The driver interface the core consumes: the maximum payload, the
    resolution of an address string to a stable address, and the buffer
    [allocPacket()] hands out after the calls made so far. *)
Record Driver := mkDriver {
  getMaxPayloadSize : Z;
  getAddress : string → Address;
  nextPacket : list Call → nat;
}.

End Driver.

(** [InboundMessage*] and [OpContext*]: handles of live objects. *)
Abbreviation MsgPtr := nat (only parsing).
Abbreviation OpPtr := nat (only parsing).

(** ** Message buffer *)

Module Message.

(** Modelled from the spec: [Message.h]/[Message.cc] are not among the
    sources.  Section 3 and 4.1: a fixed per-packet data length (the
    driver's max payload minus the header size), a declared raw length,
    an occupancy bitmap over packet slots and the packet references. *)
Record Message := mkMessage {
  PACKET_DATA_LENGTH : Z;
  messageLength : Z;
  occupied : gset Z;
  packets : gmap Z Driver.Packet;
}.

(** Modelled from the spec: construction from (driver, header length,
    message length); no slot is occupied. *)
Definition construct (driver : Driver.Driver) (packetHeaderLength : Z)
    (messageLength : Z) : Message :=
  {| PACKET_DATA_LENGTH :=
       wrap32 (Driver.getMaxPayloadSize driver - packetHeaderLength);
     messageLength := messageLength;
     occupied := ∅;
     packets := ∅ |}.

(** Modelled from the spec: [rawLength() -> uint32], immutable once set. *)
Definition rawLength (m : Message) : Z := messageLength m.

(** Modelled from the spec: the number of occupied slots. *)
Definition getNumPackets (m : Message) : Z := Z.of_nat (size (occupied m)).

(** Modelled from the spec: [setPacket(index, packet) -> bool] returns
    false if the slot is already occupied, and leaves the buffer as it
    is; otherwise it stores the packet and marks the slot. *)
Definition setPacket (index : Z) (packet : Driver.Packet) (m : Message)
    : bool * Message :=
  if decide (index ∈ occupied m) then (false, m)
  else (true,
        {| PACKET_DATA_LENGTH := PACKET_DATA_LENGTH m;
           messageLength := messageLength m;
           occupied := {[index]} ∪ occupied m;
           packets := <[index := packet]> (packets m) |}).

End Message.

(** ** Outcomes of a call *)

(** The assertions of [Receiver::handleDataPacket], by what they check. *)
Inductive Assertion :=
| InMessageNotNull   (* assert(op->inMessage != nullptr) *)
| IdMatches          (* assert(id == message->id) *)
| SourceMatches      (* assert(source->toString() == address->toString()) *)
| LengthMatches.     (* assert(rawLength() == header->totalLength) *)

#[global] Instance Assertion_eq_dec : EqDecision Assertion.
Proof. solve_decision. Defined.

Inductive outcome (A : Type) :=
| Ret (a : A)
| AssertionFailed (which : Assertion)
| InvalidPointer.

Arguments Ret {A} a.
Arguments AssertionFailed {A} which.
Arguments InvalidPointer {A}.

#[global] Instance outcome_ret : MRet outcome := λ A a, Ret a.
#[global] Instance outcome_bind : MBind outcome := λ A B f c,
  match c with
  | Ret a => f a
  | AssertionFailed w => AssertionFailed w
  | InvalidPointer => InvalidPointer
  end.

(** Dereference of a pointer looked up in a map of live objects. *)
Definition deref {A} (o : option A) : outcome A :=
  match o with
  | Some a => Ret a
  | None => InvalidPointer
  end.

Definition assert (which : Assertion) (b : bool) : outcome () :=
  if b then Ret () else AssertionFailed which.

(** ** Operation contexts and inbound messages *)

(** Modelled from the spec: [OutboundMessage] (section 3), declared in
    headers that are not among the sources: the [sent] flag, the [done]
    flag set by a matching DONE packet, and whether the send expects one. *)
Record OutboundMessage := mkOutboundMessage {
  sent : bool;
  done_ : bool;
  expectAck : bool;
}.

(** Modelled from the spec: an outbound message is complete when [done] is
    true (for sends that expect acknowledgment) or when [sent] is true and
    no DONE is required. *)
Definition isDone (m : OutboundMessage) : bool :=
  if expectAck m then done_ m else sent m.

Module OpContext.

Inductive State := NOT_STARTED | IN_PROGRESS | COMPLETED | FAILED.

#[global] Instance State_eq_dec : EqDecision State.
Proof. solve_decision. Defined.

(** The fields of an operation context that [Receiver.cc] and the tests
    read and write ([OpContext.h] is not among the sources; section 3 of
    the spec lists them). *)
Record OpContext := mkOpContext {
  isServerOp : bool;
  state : State;
  inMessage : option MsgPtr;
  outMessage : OutboundMessage;
  retained : bool;
  destroy : bool;
}.

Definition set_inMessage (m : option MsgPtr) (op : OpContext) : OpContext :=
  {| isServerOp := isServerOp op; state := state op; inMessage := m;
     outMessage := outMessage op; retained := retained op;
     destroy := destroy op |}.

End OpContext.

(** [Receiver::InboundMessage] as [Receiver.cc] uses it: the id, the lazily
    constructed buffer, the cached source address and the completion
    flag. *)
Module InboundMessage.

Record t := mk {
  id : MessageId;
  message : option Message.Message;
  source : option Driver.Address;
  fullMessageReceived : bool;
}.

(** A default-constructed [InboundMessage], as [messagePool.construct()]
    returns it, with its id then set by the caller. *)
Definition new (i : MessageId) : t :=
  {| id := i; message := None; source := None;
     fullMessageReceived := false |}.

(** [InboundMessage::isReady()], as the tests of the Transport use it. *)
Definition isReady (m : t) : bool := fullMessageReceived m.

End InboundMessage.

(** ** Scheduler *)

Module Scheduler.

(** One call of [Scheduler::packetReceived], as a mock records it. *)
Record Call := packetReceived {
  call_id : MessageId;
  call_source : Driver.Address;
  call_messageLength : Z;
  call_totalReceivedBytes : Z;
}.

#[global] Instance Call_eq_dec : EqDecision Call.
Proof. solve_decision. Defined.

End Scheduler.

(** ** Receiver *)

Module Receiver.

Import Driver Message OpContext.

(** The Receiver's members ([registeredOps], [unregisteredMessages],
    [receivedMessages], [messagePool]), the operation contexts its
    pointers refer to, and the calls made on the driver and on the
    scheduler. *)
Record World := mkWorld {
  registeredOps : gmap MessageId OpPtr;
  unregisteredMessages : gmap MessageId MsgPtr;
  receivedMessages : list MsgPtr;
  messagePool : gmap MsgPtr InboundMessage.t;
  ops : gmap OpPtr OpContext;
  driverCalls : list Driver.Call;
  schedulerCalls : list Scheduler.Call;
}.

(** [Receiver::Receiver]: every container empty. *)
Definition Receiver_new (contexts : gmap OpPtr OpContext) : World :=
  {| registeredOps := ∅; unregisteredMessages := ∅; receivedMessages := [];
     messagePool := ∅; ops := contexts; driverCalls := [];
     schedulerCalls := [] |}.

Definition set_registeredOps (f : gmap MessageId OpPtr → gmap MessageId OpPtr)
    (w : World) : World :=
  {| registeredOps := f (registeredOps w);
     unregisteredMessages := unregisteredMessages w;
     receivedMessages := receivedMessages w;
     messagePool := messagePool w; ops := ops w;
     driverCalls := driverCalls w; schedulerCalls := schedulerCalls w |}.

Definition set_unregisteredMessages
    (f : gmap MessageId MsgPtr → gmap MessageId MsgPtr) (w : World) : World :=
  {| registeredOps := registeredOps w;
     unregisteredMessages := f (unregisteredMessages w);
     receivedMessages := receivedMessages w;
     messagePool := messagePool w; ops := ops w;
     driverCalls := driverCalls w; schedulerCalls := schedulerCalls w |}.

Definition set_receivedMessages (f : list MsgPtr → list MsgPtr)
    (w : World) : World :=
  {| registeredOps := registeredOps w;
     unregisteredMessages := unregisteredMessages w;
     receivedMessages := f (receivedMessages w);
     messagePool := messagePool w; ops := ops w;
     driverCalls := driverCalls w; schedulerCalls := schedulerCalls w |}.

Definition set_messagePool
    (f : gmap MsgPtr InboundMessage.t → gmap MsgPtr InboundMessage.t)
    (w : World) : World :=
  {| registeredOps := registeredOps w;
     unregisteredMessages := unregisteredMessages w;
     receivedMessages := receivedMessages w;
     messagePool := f (messagePool w); ops := ops w;
     driverCalls := driverCalls w; schedulerCalls := schedulerCalls w |}.

Definition set_ops (f : gmap OpPtr OpContext → gmap OpPtr OpContext)
    (w : World) : World :=
  {| registeredOps := registeredOps w;
     unregisteredMessages := unregisteredMessages w;
     receivedMessages := receivedMessages w;
     messagePool := messagePool w; ops := f (ops w);
     driverCalls := driverCalls w; schedulerCalls := schedulerCalls w |}.

(** [driver->releasePackets(&packet, 1)]. *)
Definition release (packet : Packet) (w : World) : World :=
  {| registeredOps := registeredOps w;
     unregisteredMessages := unregisteredMessages w;
     receivedMessages := receivedMessages w;
     messagePool := messagePool w; ops := ops w;
     driverCalls := driverCalls w ++ [releasePackets (packetId packet)];
     schedulerCalls := schedulerCalls w |}.

(** [scheduler->packetReceived(...)]. *)
Definition notify (c : Scheduler.Call) (w : World) : World :=
  {| registeredOps := registeredOps w;
     unregisteredMessages := unregisteredMessages w;
     receivedMessages := receivedMessages w;
     messagePool := messagePool w; ops := ops w;
     driverCalls := driverCalls w;
     schedulerCalls := schedulerCalls w ++ [c] |}.

(** Modelled from the spec: [ObjectPool.h] is not among the sources.
    [messagePool.construct()] returns an object that is not live; a
    destroyed slot may be handed out again (section 5). *)
Definition construct (pool : gmap MsgPtr InboundMessage.t) : MsgPtr :=
  fresh (dom pool).

Section WithConstants.
Context {C : Constants}.

(** The block of [handleDataPacket] under the Receiver's mutex
    (Receiver.cc lines 64-88): the op and the message a packet with
    this id belongs to, creating the message when the id is neither
    registered nor known. *)
Definition findOrCreate (id : MessageId) (w : World)
    : outcome (World * option OpPtr * MsgPtr) :=
  match registeredOps w !! id with
  | Some op =>
      (* Registered Op *)
      o ← deref (ops w !! op);
      match inMessage o with
      | None => AssertionFailed InMessageNotNull
      | Some message => Ret (w, Some op, message)
      end
  | None =>
      (* Unregistered Message *)
      match unregisteredMessages w !! id with
      | Some message =>
          (* Existing unregistered message *)
          Ret (w, None, message)
      | None =>
          (* New unregistered message *)
          let message := construct (messagePool w) in
          let w := set_messagePool <[message := InboundMessage.new id]> w in
          let w := set_unregisteredMessages <[id := message]> w in
          let w := set_receivedMessages (λ q, q ++ [message]) w in
          Ret (w, None, message)
      end
  end.

(** [Receiver::handleDataPacket] (Receiver.cc lines 54-138). *)
Definition handleDataPacket (packet : Packet) (driver : Driver.Driver)
    (w : World) : outcome (World * option OpPtr) :=
  let header := payload packet in
  let dataHeaderLength := wrap16 sizeof_DataHeader in
  let id := messageId header in
  '(w, op, message) ← findOrCreate id w;
  msg ← deref (messagePool w !! message);
  _ ← assert IdMatches (bool_decide (id = msg.(InboundMessage.id)));
  (* lazy construction of the buffer and of the cached source *)
  let '(buf, src) :=
    match msg.(InboundMessage.message) with
    | Some buf => (buf, msg.(InboundMessage.source))
    | None =>
        let messageLength := totalLength header in
        let addrStr := toString (address packet) in
        (Message.construct driver dataHeaderLength messageLength,
         Some (getAddress driver addrStr))
    end in
  let store (buf : Message) (full : bool) (w : World) : World :=
    set_messagePool
      <[message := InboundMessage.mk msg.(InboundMessage.id) (Some buf)
                     src full]> w in
  if msg.(InboundMessage.fullMessageReceived) then
    (* All packets already received; must be a duplicate. *)
    Ret (release packet (store buf true w), None)
  else
    (* Things that must be true (sanity check) *)
    s ← deref src;
    _ ← assert SourceMatches
          (bool_decide (toString s = toString (address packet)));
    _ ← assert LengthMatches
          (bool_decide (rawLength buf = totalLength header));
    (* Add the packet *)
    let '(packetAdded, buf) := setPacket (index header) packet buf in
    if packetAdded then
      let totalReceivedBytes :=
        wrap32 (PACKET_DATA_LENGTH buf * getNumPackets buf) in
      let w :=
        notify (Scheduler.packetReceived id s (rawLength buf)
                  totalReceivedBytes) w in
      if bool_decide (rawLength buf ≤ totalReceivedBytes) then
        Ret (store buf true w, op)
      else
        (* Message not fully received *)
        Ret (store buf false w, None)
    else
      (* must be a duplicate packet; drop packet. *)
      Ret (release packet (store buf false w), None).

End WithConstants.

(** [Receiver::receiveMessage] (Receiver.cc lines 156-166). *)
Definition receiveMessage (w : World) : World * option MsgPtr :=
  match receivedMessages w with
  | [] => (w, None)
  | message :: rest => (set_receivedMessages (λ _, rest) w, Some message)
  end.

(** [Receiver::dropMessage] (Receiver.cc lines 175-182). *)
Definition dropMessage (message : MsgPtr) (w : World) : outcome World :=
  msg ← deref (messagePool w !! message);
  let w := set_unregisteredMessages (delete msg.(InboundMessage.id)) w in
  Ret (set_messagePool (delete message) w).

(** [Receiver::registerOp] (Receiver.cc lines 193-211).  The final
    [registeredOps.insert] keeps an entry that is already there. *)
Definition registerOp (id : MessageId) (op : OpPtr) (w : World)
    : outcome World :=
  let '(w, message) :=
    match unregisteredMessages w !! id with
    | Some message =>
        (* Existing message *)
        (set_unregisteredMessages (delete id) w, message)
    | None =>
        (* New message *)
        let message := construct (messagePool w) in
        (set_messagePool <[message := InboundMessage.new id]> w, message)
    end in
  o ← deref (ops w !! op);
  let w := set_ops <[op := set_inMessage (Some message) o]> w in
  Ret (set_registeredOps
         (λ r, match r !! id with Some _ => r | None => <[id := op]> r end)
         w).

(** [Receiver::dropOp] (Receiver.cc lines 220-230). *)
Definition dropOp (op : OpPtr) (w : World) : outcome World :=
  o ← deref (ops w !! op);
  match inMessage o with
  | None => AssertionFailed InMessageNotNull
  | Some message =>
      msg ← deref (messagePool w !! message);
      let w := set_ops <[op := set_inMessage None o]> w in
      let w := set_registeredOps (delete msg.(InboundMessage.id)) w in
      Ret (set_messagePool (delete message) w)
  end.

(** [Receiver::poll] (Receiver.cc lines 235-237). *)
Definition poll (w : World) : World := w.

(** *** Observations used to state the properties *)

(** The message the Receiver's two maps associate with an id: the
    [inMessage] of the registered op, else the unregistered message. *)
Definition findMessage (id : MessageId) (w : World) : option MsgPtr :=
  match registeredOps w !! id with
  | Some op => ops w !! op ≫= inMessage
  | None => unregisteredMessages w !! id
  end.

Definition messageOf (id : MessageId) (w : World) : option InboundMessage.t :=
  findMessage id w ≫= λ message, messagePool w !! message.

(** Whether the message of this id exists and is fully received. *)
Definition isFull (id : MessageId) (w : World) : bool :=
  match messageOf id w with
  | Some msg => InboundMessage.fullMessageReceived msg
  | None => false
  end.

(** Whether the slot is occupied in the buffer of the message of this id
    (no slot is, as long as the buffer is not constructed). *)
Definition slotOccupied (id : MessageId) (index : Z) (w : World) : bool :=
  match messageOf id w ≫= InboundMessage.message with
  | Some buf => bool_decide (index ∈ occupied buf)
  | None => false
  end.

(** Whether the id is known to the Receiver. *)
Definition known (id : MessageId) (w : World) : bool :=
  bool_decide (is_Some (registeredOps w !! id)
               ∨ is_Some (unregisteredMessages w !! id)).

(** [messagePool.outstandingObjects]. *)
Definition outstandingObjects (w : World) : nat := size (messagePool w).

(** The message of this id is fully received: it is live, carries the id,
    its buffer is constructed and its flag is set. *)
Definition completed (id : MessageId) (w : World) : Prop :=
  ∃ msg, messageOf id w = Some msg
    ∧ InboundMessage.id msg = id
    ∧ is_Some (InboundMessage.message msg)
    ∧ InboundMessage.fullMessageReceived msg = true.

(** Every message whose buffer is constructed has the raw length [L] and a
    cached source printing as [S] that go with its id. *)
Definition consistentWith (L : MessageId → Z) (S : MessageId → string)
    (w : World) : Prop :=
  ∀ m msg buf,
    messagePool w !! m = Some msg →
    InboundMessage.message msg = Some buf →
    rawLength buf = L (InboundMessage.id msg)
    ∧ ∃ s, InboundMessage.source msg = Some s
         ∧ toString s = S (InboundMessage.id msg).

(** The ids known to the Receiver. *)
Definition knownIds (w : World) : gset MessageId :=
  dom (registeredOps w) ∪ dom (unregisteredMessages w).

Section WithConstants.
Context {C : Constants}.

(** The buffer and the cached source of a message once a packet went
    through the lazy construction of [handleDataPacket] (Receiver.cc
    lines 92-99): the ones it has, or the ones made from the packet. *)
Definition bufferFor (packet : Packet) (driver : Driver.Driver)
    (msg : InboundMessage.t) : Message :=
  match InboundMessage.message msg with
  | Some buf => buf
  | None =>
      Message.construct driver (wrap16 sizeof_DataHeader)
        (totalLength (payload packet))
  end.

Definition sourceFor (packet : Packet) (driver : Driver.Driver)
    (msg : InboundMessage.t) : option Address :=
  match InboundMessage.message msg with
  | Some _ => InboundMessage.source msg
  | None => Some (getAddress driver (toString (address packet)))
  end.

(** A sequence of DATA packets handed to [handleDataPacket] one after
    the other, with what each call returned. *)
Fixpoint handleDataPackets (packets : list Packet) (driver : Driver.Driver)
    (w : World) : outcome (World * list (option OpPtr)) :=
  match packets with
  | [] => Ret (w, [])
  | packet :: rest =>
      '(w, ret) ← handleDataPacket packet driver w;
      '(w, rets) ← handleDataPackets rest driver w;
      Ret (w, ret :: rets)
  end.

End WithConstants.

(** *** Well-formed Receivers *)

(** An entry of [registeredOps]: the op is live and its [inMessage] is a
    live pool object that carries the id. *)
Definition registered_ok (w : World) (id : MessageId) (op : OpPtr) : Prop :=
  InboundMessage.id
    <$> ((ops w !! op ≫= inMessage) ≫= λ message, messagePool w !! message)
  = Some id.

(** An entry of [unregisteredMessages]: the message is a live pool object
    that carries the id, and the id is not registered as well. *)
Definition unregistered_ok (w : World) (id : MessageId) (message : MsgPtr)
    : Prop :=
  InboundMessage.id <$> messagePool w !! message = Some id
  ∧ registeredOps w !! id = None.

(** A pool object whose buffer is constructed has its source cached. *)
Definition sourced (msg : InboundMessage.t) : Prop :=
  is_Some (InboundMessage.message msg) → is_Some (InboundMessage.source msg).

(** The state the Receiver's own functions keep: what [handleDataPacket]
    dereferences without a check is there. *)
Definition wf (w : World) : Prop :=
  map_Forall (registered_ok w) (registeredOps w)
  ∧ map_Forall (unregistered_ok w) (unregisteredMessages w)
  ∧ map_Forall (λ _ msg, sourced msg) (messagePool w).

#[global] Instance wf_dec (w : World) : Decision (wf w).
Proof. unfold wf, registered_ok, unregistered_ok, sourced. apply _. Defined.

(** Whether some id is registered to this op. *)
Definition registered (op : OpPtr) (w : World) : Prop :=
  ∃ id, registeredOps w !! id = Some op.

(** The completion flag of every pool object says what its buffer holds:
    it is set exactly when the buffer is constructed and the 32-bit product
    PACKET_DATA_LENGTH * getNumPackets() is at least rawLength. *)
Definition flagExact (w : World) : Prop :=
  map_Forall
    (λ _ msg,
       InboundMessage.fullMessageReceived msg
       = match InboundMessage.message msg with
         | Some buf =>
             bool_decide
               (rawLength buf
                ≤ wrap32 (PACKET_DATA_LENGTH buf * getNumPackets buf))
         | None => false
         end)
    (messagePool w).

#[global] Instance flagExact_dec (w : World) : Decision (flagExact w).
Proof. unfold flagExact. apply _. Defined.

(** [receiveMessage] called [n] times in a row, with what each call
    returned. *)
Fixpoint receiveMessages (n : nat) (w : World) : World * list (option MsgPtr) :=
  match n with
  | O => (w, [])
  | S n =>
      let '(w, message) := receiveMessage w in
      let '(w, messages) := receiveMessages n w in
      (w, message :: messages)
  end.

(** The ids of a sequence of packets that are not among [seen], each once,
    in the order in which they come first. *)
Fixpoint newIds (seen : gset MessageId) (packets : list Packet)
    : list MessageId :=
  match packets with
  | [] => []
  | packet :: rest =>
      let id := messageId (payload packet) in
      if decide (id ∈ seen) then newIds seen rest
      else id :: newIds ({[id]} ∪ seen) rest
  end.

(** A packet the Receiver has accepted into the message of its id, or
    dropped as coming after completion: the message is live, carries the id
    and has its buffer, and either it is fully received, or its cached
    source prints as the packet's address, its rawLength is the packet's
    totalLength and it holds the packet's slot. *)
Definition received (packet : Packet) (w : World) : Prop :=
  let header := payload packet in
  ∃ msg buf,
    messageOf (messageId header) w = Some msg
    ∧ InboundMessage.id msg = messageId header
    ∧ InboundMessage.message msg = Some buf
    ∧ (InboundMessage.fullMessageReceived msg = true
       ∨ ∃ s, InboundMessage.source msg = Some s
            ∧ toString s = toString (address packet)
            ∧ rawLength buf = totalLength header
            ∧ index header ∈ occupied buf).

End Receiver.

(** ** Sender *)

Module Sender.

(** One call of [Sender::sendMessage], as a mock records it. *)
Record Call := sendMessage {
  call_id : MessageId;
  call_destination : Driver.Address;
  call_op : OpPtr;
  call_expectAck : bool;
}.

#[global] Instance Call_eq_dec : EqDecision Call.
Proof. solve_decision. Defined.

End Sender.

(** ** Transport *)

Module Transport.

Import Driver OpContext.

(** The Transport's members that the operation life cycle uses, the
    Receiver with the operation contexts, and the calls made on the
    sender. *)
Record Transport := mkTransport {
  transportId : Z;
  nextOpSequenceNumber : Z;
  world : Receiver.World;
  senderCalls : list Sender.Call;
  pendingServerOps : list OpPtr;
  updateHints : list OpPtr;
  unusedOps : list OpPtr;
}.

Definition set_world (f : Receiver.World → Receiver.World) (t : Transport)
    : Transport :=
  {| transportId := transportId t;
     nextOpSequenceNumber := nextOpSequenceNumber t;
     world := f (world t); senderCalls := senderCalls t;
     pendingServerOps := pendingServerOps t;
     updateHints := updateHints t; unusedOps := unusedOps t |}.

Definition set_op (op : OpPtr) (o : OpContext) (t : Transport) : Transport :=
  set_world (Receiver.set_ops <[op := o]>) t.

Definition set_state (s : State) (o : OpContext) : OpContext :=
  {| isServerOp := isServerOp o; state := s; inMessage := inMessage o;
     outMessage := outMessage o; retained := retained o;
     destroy := destroy o |}.

Definition set_destroy (b : bool) (o : OpContext) : OpContext :=
  {| isServerOp := isServerOp o; state := state o; inMessage := inMessage o;
     outMessage := outMessage o; retained := retained o; destroy := b |}.

Definition enqueue_pendingServerOps (op : OpPtr) (t : Transport) : Transport :=
  {| transportId := transportId t;
     nextOpSequenceNumber := nextOpSequenceNumber t;
     world := world t; senderCalls := senderCalls t;
     pendingServerOps := pendingServerOps t ++ [op];
     updateHints := updateHints t; unusedOps := unusedOps t |}.

Definition enqueue_unusedOps (op : OpPtr) (t : Transport) : Transport :=
  {| transportId := transportId t;
     nextOpSequenceNumber := nextOpSequenceNumber t;
     world := world t; senderCalls := senderCalls t;
     pendingServerOps := pendingServerOps t;
     updateHints := updateHints t; unusedOps := unusedOps t ++ [op] |}.

Definition record_sendMessage (c : Sender.Call) (t : Transport) : Transport :=
  {| transportId := transportId t;
     nextOpSequenceNumber := nextOpSequenceNumber t;
     world := world t; senderCalls := senderCalls t ++ [c];
     pendingServerOps := pendingServerOps t;
     updateHints := updateHints t; unusedOps := unusedOps t |}.

Definition record_driverCalls (cs : list Driver.Call) (w : Receiver.World)
    : Receiver.World :=
  {| Receiver.registeredOps := Receiver.registeredOps w;
     Receiver.unregisteredMessages := Receiver.unregisteredMessages w;
     Receiver.receivedMessages := Receiver.receivedMessages w;
     Receiver.messagePool := Receiver.messagePool w;
     Receiver.ops := Receiver.ops w;
     Receiver.driverCalls := Receiver.driverCalls w ++ cs;
     Receiver.schedulerCalls := Receiver.schedulerCalls w |}.

(** Modelled from the spec: [Transport.cc] is not among the sources.
    Section 4.5: [hintUpdate] is idempotent, an op already on the hint
    set is not added again. *)
Definition hintUpdate (op : OpPtr) (t : Transport) : Transport :=
  if bool_decide (op ∈ updateHints t) then t
  else
    {| transportId := transportId t;
       nextOpSequenceNumber := nextOpSequenceNumber t;
       world := world t; senderCalls := senderCalls t;
       pendingServerOps := pendingServerOps t;
       updateHints := updateHints t ++ [op]; unusedOps := unusedOps t |}.

(** Modelled from the spec: [Transport.cc] is not among the sources.
    Section 4.5: [drop] sets [destroy] and pushes the op onto the
    transport-wide unusedOps queue, idempotently. *)
Definition drop (op : OpPtr) (t : Transport) : outcome Transport :=
  o ← deref (Receiver.ops (world t) !! op);
  if destroy o then Ret t
  else Ret (enqueue_unusedOps op (set_op op (set_destroy true o) t)).

(** The inbound message an op points to. *)
Definition inbound (o : OpContext) (t : Transport) : outcome InboundMessage.t :=
  message ← deref (inMessage o);
  deref (Receiver.messagePool (world t) !! message).

Section WithConstants.
Context {C : Constants}.

(** Modelled from the spec: [Transport.cc] is not among the sources.
    Section 4.5, the transitions driven by [processUpdates]: nothing if
    [destroy] is set; a server-role op goes from NOT_STARTED to
    IN_PROGRESS (and onto pendingServerOps) when its inbound message is
    ready, from IN_PROGRESS to COMPLETED when its outbound message is
    done, with a DONE packet (allocated from the driver, sent, then
    released) unless the inbound's tag is INITIAL_REQUEST_TAG, and is
    dropped in a terminal state once it is not retained; a client-role
    op is dropped once it is not retained, else goes from IN_PROGRESS to
    COMPLETED when its inbound message is ready.  Every state change
    enqueues a hint. *)
Definition processUpdates (driver : Driver.Driver) (op : OpPtr)
    (t : Transport) : outcome Transport :=
  o ← deref (Receiver.ops (world t) !! op);
  if destroy o then Ret t
  else if isServerOp o then
    match state o with
    | NOT_STARTED =>
        msg ← inbound o t;
        if InboundMessage.isReady msg then
          let t := set_op op (set_state IN_PROGRESS o) t in
          let t := enqueue_pendingServerOps op t in
          Ret (hintUpdate op t)
        else Ret t
    | IN_PROGRESS =>
        if isDone (outMessage o) then
          let t := set_op op (set_state COMPLETED o) t in
          let t := hintUpdate op t in
          msg ← inbound o t;
          let id := InboundMessage.id msg in
          if bool_decide (tag id = INITIAL_REQUEST_TAG) then Ret t
          else
            let p := nextPacket driver (Receiver.driverCalls (world t)) in
            Ret (set_world
                   (record_driverCalls
                      [allocPacket p; sendPackets p DONE id;
                       releasePackets p]) t)
        else Ret t
    | COMPLETED | FAILED =>
        if retained o then Ret t else drop op t
    end
  else if negb (retained o) then drop op t
  else
    match state o with
    | NOT_STARTED => Ret t
    | IN_PROGRESS =>
        msg ← inbound o t;
        if InboundMessage.isReady msg then
          let t := set_op op (set_state COMPLETED o) t in
          Ret (hintUpdate op t)
        else Ret t
    | COMPLETED | FAILED => Ret t
    end.

(** [processUpdates] called [n] times in a row on the same op. *)
Fixpoint processUpdatesN (n : nat) (driver : Driver.Driver) (op : OpPtr)
    (t : Transport) : outcome Transport :=
  match n with
  | O => Ret t
  | S n => t ← processUpdates driver op t; processUpdatesN n driver op t
  end.

(** Modelled from the spec: [Transport.cc] is not among the sources
    ([Transport.h] line 53 declares the function).  Section 4.6: a
    client-role op gets a fresh OpId, is registered with the Receiver
    under the ULTIMATE_RESPONSE_TAG, its request is sent under the
    INITIAL_REQUEST_TAG without acknowledgment, and its state becomes
    IN_PROGRESS; a server-role op sends a chained request with
    acknowledgment, under the id of its inbound message with the tag
    moved by one.  The direction of that move is the one the test
    [TransportTest.sendRequest_ServerOp] (TransportTest.cc lines
    459-474) fixes: the inbound message there carries the expected id
    with its tag decremented, so the id sent carries the inbound's tag
    incremented. *)
Definition sendRequest (op : OpPtr) (destination : Address)
    (t : Transport) : outcome Transport :=
  o ← deref (Receiver.ops (world t) !! op);
  if isServerOp o then
    msg ← inbound o t;
    let inId := InboundMessage.id msg in
    let requestId := set_tag (tag_incr (tag inId)) inId in
    Ret (record_sendMessage
           (Sender.sendMessage requestId destination op true) t)
  else
    let sequence := nextOpSequenceNumber t in
    let t :=
      {| transportId := transportId t;
         nextOpSequenceNumber := (sequence + 1) mod 2 ^ 64;
         world := world t; senderCalls := senderCalls t;
         pendingServerOps := pendingServerOps t;
         updateHints := updateHints t; unusedOps := unusedOps t |} in
    w ← Receiver.registerOp
          (mkMessageId (transportId t) sequence ULTIMATE_RESPONSE_TAG)
          op (world t);
    let t := set_world (λ _, w) t in
    let t :=
      record_sendMessage
        (Sender.sendMessage
           (mkMessageId (transportId t) sequence INITIAL_REQUEST_TAG)
           destination op false) t in
    o ← deref (Receiver.ops (world t) !! op);
    Ret (set_op op (set_state IN_PROGRESS o) t).

(** Modelled from the spec: [Transport.cc] is not among the sources.
    The states of a Transport that the operation life cycle reaches
    (sections 3, 4.5 and 4.6).  Ops are constructed with [destroy] clear;
    [destroy] is set by [drop] only, which [processUpdates] calls; and
    "once destroy=true the context is unreachable from public indexes":
    whatever else acts on the Transport (the application through the
    public API, the Sender, the Receiver, the pools) may construct and
    destroy ops and change an op that is not marked for destruction in
    any way but by marking it, and leaves the role, the state and the
    mark of a marked op as they are. *)
Inductive reachable (driver : Driver.Driver) : Transport → Prop :=
  | reachable_constructed t :
      (∀ op o, Receiver.ops (world t) !! op = Some o → destroy o = false) →
      reachable driver t
  | reachable_processUpdates op t t' :
      reachable driver t →
      processUpdates driver op t = Ret t' →
      reachable driver t'
  | reachable_sendRequest op destination t t' :
      reachable driver t →
      sendRequest op destination t = Ret t' →
      reachable driver t'
  | reachable_outside t t' :
      reachable driver t →
      (∀ op o',
         Receiver.ops (world t') !! op = Some o' →
         destroy o' = true →
         ∃ o, Receiver.ops (world t) !! op = Some o
            ∧ destroy o = true
            ∧ isServerOp o' = isServerOp o
            ∧ state o' = state o) →
      reachable driver t'.

End WithConstants.

(** A server-role op that is marked for destruction is in a terminal
    state. *)
Definition destroyed_terminal (t : Transport) : Prop :=
  ∀ op o,
    Receiver.ops (world t) !! op = Some o →
    destroy o = true →
    isServerOp o = true →
    state o = COMPLETED ∨ state o = FAILED.

End Transport.

(** ** The fixtures and the scenarios of the tests *)

Module Tests.

Import Driver OpContext.

(** The header size is the one of [ReceiverTest]: a max payload of 1028
    gives a PACKET_DATA_LENGTH of 1000.  Tags are taken on 32 bits. *)
#[local] Instance testConstants : Constants :=
  {| sizeof_DataHeader := 28; TAG_BITS := 32;
     INITIAL_REQUEST_TAG := 1; ULTIMATE_RESPONSE_TAG := 0 |}.

(** [mockDriver] of [ReceiverTest]: [getMaxPayloadSize] returns 1028 and
    [getAddress] returns an address that prints as the string given. *)
Definition mockDriver : Driver.Driver :=
  {| getMaxPayloadSize := 1028;
     getAddress := λ s, mkAddress 0 s;
     nextPacket := λ calls, length calls |}.

Definition mockAddress : Address := mkAddress 0 "remote-location".

(** [mockPacket] with its header set to (id, index, totalLength 1420). *)
Definition mockPacket (id : MessageId) (index : Z) : Packet :=
  mkPacket 0 mockAddress (mkDataHeader id index 1420).

(** An op as [OpContext op_(nullptr, &mockDriver)] and
    [opPool.construct(transport, &mockDriver, isServerOp)] make it. *)
Definition newOp (isServerOp : bool) : OpContext :=
  {| isServerOp := isServerOp; state := NOT_STARTED; inMessage := None;
     outMessage := mkOutboundMessage false false false;
     retained := false; destroy := false |}.

Definition id_42_32_22 : MessageId := mkMessageId 42 32 22.

(** The set-up of [ReceiverTest.handleDataPacket_basic] (ReceiverTest.cc
    lines 72-79): op 0 registered for (42, 32, 22) with message 0. *)
Definition basic : Receiver.World :=
  {| Receiver.registeredOps := {[ id_42_32_22 := 0%nat ]};
     Receiver.unregisteredMessages := ∅;
     Receiver.receivedMessages := [];
     Receiver.messagePool := {[ 0%nat := InboundMessage.new id_42_32_22 ]};
     Receiver.ops :=
       {[ 0%nat := set_inMessage (Some 0%nat) (newOp false) ]};
     Receiver.driverCalls := [];
     Receiver.schedulerCalls := [] |}.

(** The world a call of [handleDataPacket] leaves (the world as it was
    if the call does not return). *)
Definition after (packet : Packet) (w : Receiver.World) : Receiver.World :=
  match Receiver.handleDataPacket packet mockDriver w with
  | Ret (w, _) => w
  | _ => w
  end.

(** [basic] after packet 1 was received (lines 86-110), after packet 1
    was received again (lines 127-140), and after packet 0 completed the
    message (lines 154-171). *)
Definition basic_after_1 : Receiver.World :=
  after (mockPacket id_42_32_22 1) basic.

Definition basic_after_duplicate : Receiver.World :=
  after (mockPacket id_42_32_22 1) basic_after_1.

Definition basic_complete : Receiver.World :=
  after (mockPacket id_42_32_22 0) basic_after_duplicate.

(** A Receiver with one context and nothing received. *)
Definition empty : Receiver.World :=
  Receiver.Receiver_new {[ 0%nat := newOp false ]}.

(** [empty] after a DATA packet for the unregistered id (42, 32, 22)
    (scenario 3 of the spec, [ReceiverTest.handleDataPacket_newUnregistered]):
    message 0 is unregistered and on the received-messages FIFO. *)
Definition unregistered : Receiver.World :=
  after (mockPacket id_42_32_22 1) empty.

(** ... and after packet 0 of the same message. *)
Definition unregistered_complete : Receiver.World :=
  after (mockPacket id_42_32_22 0) unregistered.



(** The set-up of [TransportTest.sendRequest_ServerOp] (TransportTest.cc
    lines 461-468): transport 22, a server-role op 0 whose inbound
    message 0 carries the expected id (22, 42, 3) with its tag
    decremented. *)
Definition expectedId : MessageId := mkMessageId 22 42 3.

Definition destination : Address := mkAddress 22 "".

Definition serverOpTransport (inboundId : MessageId) (o : OpContext)
    : Transport.Transport :=
  {| Transport.transportId := 22;
     Transport.nextOpSequenceNumber := 1;
     Transport.world :=
       {| Receiver.registeredOps := ∅;
          Receiver.unregisteredMessages := ∅;
          Receiver.receivedMessages := [];
          Receiver.messagePool := {[ 0%nat := InboundMessage.new inboundId ]};
          Receiver.ops := {[ 0%nat := set_inMessage (Some 0%nat) o ]};
          Receiver.driverCalls := [];
          Receiver.schedulerCalls := [] |};
     Transport.senderCalls := [];
     Transport.pendingServerOps := [];
     Transport.updateHints := [];
     Transport.unusedOps := [] |}.

(** [TransportTest.sendRequest_ServerOp] (TransportTest.cc lines 459-474),
    run on an implementation of [Transport::sendRequest]: the Sender must
    have been asked once, for [expectedId], the destination, the op and
    [expectAck = true]. *)
Definition sendRequest_ServerOp
    (impl : OpPtr → Address → Transport.Transport
            → outcome Transport.Transport) : bool :=
  let inboundId := set_tag (tag_decr (tag expectedId)) expectedId in
  match impl 0%nat destination (serverOpTransport inboundId (newOp true)) with
  | Ret t =>
      bool_decide (Transport.senderCalls t
                   = [Sender.sendMessage expectedId destination 0%nat true])
  | _ => false
  end.

(** An op in the given state with its outbound message sent, as the tests
    of [processUpdates] set it up (TransportTest.cc lines 183-285). *)
Definition opIn (isServerOp : bool) (s : State) (retained destroy : bool)
    : OpContext :=
  {| isServerOp := isServerOp; state := s; inMessage := None;
     outMessage := mkOutboundMessage true false false;
     retained := retained; destroy := destroy |}.

End Tests.

(** * Properties *)

Import Driver Message OpContext.

(** ** Outcomes *)

Lemma bind_Ret_inv {A B} (c : outcome A) (f : A → outcome B) (b : B) :
  c ≫= f = Ret b → ∃ a, c = Ret a ∧ f a = Ret b.
Proof. destruct c as [a| |]; simpl; [eauto | discriminate..]. Qed.

Lemma deref_Ret_inv {A} (o : option A) (a : A) : deref o = Ret a → o = Some a.
Proof. destruct o; simpl; congruence. Qed.

Lemma assert_Ret_inv (which : Assertion) (b : bool) (u : ()) :
  assert which b = Ret u → b = true.
Proof. destruct b; simpl; congruence. Qed.

(** ** The Receiver's look-up *)

Section Receiver_facts.
Context {C : Constants}.
Import Receiver.

Implicit Types (w : World) (id : MessageId) (packet : Packet)
  (driver : Driver.Driver).

Lemma known_false id w :
  known id w = false ↔
  registeredOps w !! id = None ∧ unregisteredMessages w !! id = None.
Proof.
  unfold known. rewrite bool_decide_eq_false.
  destruct (registeredOps w !! id), (unregisteredMessages w !! id);
    split; try (intros [? ?]; discriminate).
  - intros Hn. destruct Hn. left. eauto.
  - intros Hn. destruct Hn. left. eauto.
  - intros Hn. destruct Hn. right. eauto.
  - done.
  - intros _ [[? ?]|[? ?]]; discriminate.
Qed.

Lemma known_findMessage id w m : findMessage id w = Some m → known id w = true.
Proof.
  unfold findMessage, known. intros Hf. apply bool_decide_eq_true.
  destruct (registeredOps w !! id); [left; eauto | right; eauto].
Qed.

(** What the block under the Receiver's mutex returns: the registered op
    if any, and either the message already associated with the id, the
    world being as it was, or a fresh pool object that is made the
    unregistered message of the id and put on the FIFO. *)
Lemma findOrCreate_Ret id w w1 op m :
  findOrCreate id w = Ret (w1, op, m) →
  op = registeredOps w !! id ∧
  ((findMessage id w = Some m ∧ w1 = w)
   ∨ (known id w = false ∧ m = construct (messagePool w)
      ∧ messagePool w !! m = None
      ∧ w1 = set_receivedMessages (λ q, q ++ [m])
               (set_unregisteredMessages <[id := m]>
                  (set_messagePool <[m := InboundMessage.new id]> w)))).
Proof.
  unfold findOrCreate, findMessage. intros Hf.
  destruct (registeredOps w !! id) as [op'|] eqn:Hreg.
  - apply bind_Ret_inv in Hf as (o & Ho%deref_Ret_inv & Hf).
    destruct (inMessage o) as [m'|] eqn:Hin; [|discriminate].
    simplify_eq. split; [done|]. left. split; [|done].
    rewrite Ho. simpl. done.
  - destruct (unregisteredMessages w !! id) as [m'|] eqn:Hun.
    + injection Hf as <- <- <-. auto.
    + injection Hf as <- <- <-. split; [done|]. right.
      split; [by apply known_false|]. split; [done|]. split; [|done].
      apply not_elem_of_dom. unfold construct. apply is_fresh.
Qed.

Lemma findOrCreate_findMessage id w w1 op m :
  findOrCreate id w = Ret (w1, op, m) → findMessage id w1 = Some m.
Proof.
  intros Hf. destruct (findOrCreate_Ret _ _ _ _ _ Hf) as [_ [[? ->]|(Hk&_&_&->)]];
    [done|].
  apply known_false in Hk as [Hreg Hun].
  unfold findMessage. simpl. rewrite Hreg. apply lookup_insert_eq.
Qed.

End Receiver_facts.

(** ** One call of [handleDataPacket] *)

Section handleDataPacket_facts.
Context {C : Constants}.
Import Receiver.

Implicit Types (w : World) (id : MessageId) (packet : Packet)
  (driver : Driver.Driver).

(** The paths on which [handleDataPacket] returns, read off its body. *)
Lemma handleDataPacket_Ret packet driver w w' ret :
  handleDataPacket packet driver w = Ret (w', ret) →
  let header := payload packet in
  let id := messageId header in
  ∃ w1 op m msg,
    findOrCreate id w = Ret (w1, op, m)
    ∧ messagePool w1 !! m = Some msg
    ∧ InboundMessage.id msg = id
    ∧ let buf := bufferFor packet driver msg in
      let src := sourceFor packet driver msg in
      if InboundMessage.fullMessageReceived msg then
        ret = None
        ∧ w' = release packet
                 (set_messagePool
                    <[m := InboundMessage.mk id (Some buf) src true]> w1)
      else
        ∃ s, src = Some s
          ∧ toString s = toString (address packet)
          ∧ rawLength buf = totalLength header
          ∧ if decide (index header ∈ occupied buf) then
              ret = None
              ∧ w' = release packet
                       (set_messagePool
                          <[m := InboundMessage.mk id (Some buf) src false]>
                          w1)
            else
              let buf' := (setPacket (index header) packet buf).2 in
              let total :=
                wrap32 (PACKET_DATA_LENGTH buf' * getNumPackets buf') in
              let full := bool_decide (rawLength buf' ≤ total) in
              ret = (if full then op else None)
              ∧ w' = set_messagePool
                       <[m := InboundMessage.mk id (Some buf') src full]>
                       (notify (Scheduler.packetReceived id s
                                  (rawLength buf') total) w1).
Proof.
  unfold handleDataPacket. intros Hh.
  apply bind_Ret_inv in Hh as ([[w1 op] m] & Hf & Hh).
  apply bind_Ret_inv in Hh as (msg & Hmsg%deref_Ret_inv & Hh).
  apply bind_Ret_inv in Hh as (u & Hid & Hh).
  apply assert_Ret_inv, bool_decide_eq_true in Hid.
  exists w1, op, m, msg. split; [done|]. split; [done|]. split; [done|].
  simpl. unfold bufferFor, sourceFor. rewrite <- Hid in Hh.
  destruct (InboundMessage.message msg) as [buf|] eqn:Hbuf;
    destruct (InboundMessage.fullMessageReceived msg) eqn:Hfull.
  all: try (injection Hh as <- <-; done).
  all: apply bind_Ret_inv in Hh as (s & Hs%deref_Ret_inv & Hh);
    apply bind_Ret_inv in Hh as (u1 & Hsrc & Hh);
    apply assert_Ret_inv, bool_decide_eq_true in Hsrc;
    apply bind_Ret_inv in Hh as (u2 & Hlen & Hh);
    apply assert_Ret_inv, bool_decide_eq_true in Hlen;
    exists s; split; [done|]; split; [done|]; split; [done|];
    unfold setPacket in *; case_decide.
  all: try (injection Hh as <- <-; done).
  all: simpl in *; case_bool_decide; injection Hh as <- <-; done.
Qed.

Lemma isFull_eq id w m msg :
  findMessage id w = Some m → messagePool w !! m = Some msg →
  isFull id w = InboundMessage.fullMessageReceived msg.
Proof. unfold isFull, messageOf. intros -> Hm. simpl. by rewrite Hm. Qed.

Lemma messageOf_unknown id w : known id w = false → messageOf id w = None.
Proof.
  intros [Hreg Hun]%known_false. unfold messageOf, findMessage.
  by rewrite Hreg, Hun.
Qed.

(** The message found or created for a packet, seen from the world
    before the call: the message of the id, or no message at all and a
    default-constructed one after the look-up. *)
Lemma findOrCreate_messageOf id w w1 op m msg :
  findOrCreate id w = Ret (w1, op, m) → messagePool w1 !! m = Some msg →
  (w1 = w ∧ findMessage id w = Some m ∧ messageOf id w = Some msg)
  ∨ (known id w = false ∧ messageOf id w = None
     ∧ msg = InboundMessage.new id).
Proof.
  intros Hf Hm.
  destruct (findOrCreate_Ret _ _ _ _ _ Hf) as [_ [[Hfm ->]|(Hk&_&_&->)]].
  - left. split; [done|]. split; [done|]. unfold messageOf.
    rewrite Hfm. done.
  - right. split; [done|]. split; [by apply messageOf_unknown|].
    simpl in Hm. rewrite lookup_insert_eq in Hm. congruence.
Qed.

Lemma findOrCreate_isFull id w w1 op m msg :
  findOrCreate id w = Ret (w1, op, m) → messagePool w1 !! m = Some msg →
  isFull id w = InboundMessage.fullMessageReceived msg.
Proof.
  intros Hf Hm. unfold isFull.
  destruct (findOrCreate_messageOf _ _ _ _ _ _ Hf Hm)
    as [(_&_&->)|(_&->&->)]; done.
Qed.

Lemma findOrCreate_slotOccupied id w w1 op m msg packet driver index :
  findOrCreate id w = Ret (w1, op, m) → messagePool w1 !! m = Some msg →
  slotOccupied id index w
  = bool_decide (index ∈ occupied (bufferFor packet driver msg)).
Proof.
  intros Hf Hm. unfold slotOccupied, bufferFor.
  destruct (findOrCreate_messageOf _ _ _ _ _ _ Hf Hm)
    as [(_&_&->)|(_&->&->)]; simpl.
  - destruct (InboundMessage.message msg); simpl; [done|].
    symmetry. apply bool_decide_eq_false. set_solver.
  - symmetry. apply bool_decide_eq_false. set_solver.
Qed.

Lemma messageOf_eq id w m :
  findMessage id w = Some m → messageOf id w = messagePool w !! m.
Proof. unfold messageOf. by intros ->. Qed.

(** Storing a message over itself leaves the world as it is. *)
Lemma set_messagePool_id w m msg :
  messagePool w !! m = Some msg → set_messagePool <[m := msg]> w = w.
Proof.
  intros Hm. destruct w. unfold set_messagePool. simpl in *.
  by rewrite insert_id.
Qed.

(** What a returning call leaves of the look-up of any id: the maps are as
    they were, up to the new unregistered message of the packet's id. *)
Lemma handleDataPacket_findMessage packet driver w w' ret id' m' :
  handleDataPacket packet driver w = Ret (w', ret) →
  findMessage id' w = Some m' → findMessage id' w' = Some m'.
Proof.
  intros Hh Hfm.
  destruct (handleDataPacket_Ret _ _ _ _ _ Hh)
    as (w1 & op & m & msg & Hf & Hm & Hid & Hcase).
  assert (findMessage id' w1 = Some m') as Hfm1.
  { destruct (findOrCreate_Ret _ _ _ _ _ Hf) as [_ [[_ ->]|(Hk&_&_&->)]];
      [done|].
    apply known_false in Hk as [Hreg Hun].
    unfold findMessage in *. simpl.
    destruct (registeredOps w !! id'); [done|].
    rewrite lookup_insert_ne; [done|]. intros <-. congruence. }
  simpl in Hcase.
  destruct (InboundMessage.fullMessageReceived msg);
    [by destruct Hcase as [_ ->]|].
  destruct Hcase as (s & _ & _ & _ & Hcase).
  case_decide; by destruct Hcase as [_ ->].
Qed.

(** An id with a message is found, and the world is left as it is. *)
Lemma findOrCreate_found id w m :
  findMessage id w = Some m →
  findOrCreate id w = Ret (w, registeredOps w !! id, m).
Proof.
  unfold findOrCreate, findMessage. intros Hfm.
  destruct (registeredOps w !! id) as [op|].
  - destruct (ops w !! op) as [o|]; [|done]. simpl in *. by rewrite Hfm.
  - by rewrite Hfm.
Qed.

(** A packet for a completed message: the call returns nullptr and only
    releases the packet. *)
Lemma handleDataPacket_completed packet driver w :
  completed (messageId (payload packet)) w →
  handleDataPacket packet driver w = Ret (release packet w, None).
Proof.
  intros (msg & Hmo & Hid & [buf Hbuf] & Hfull).
  unfold messageOf in Hmo.
  destruct (findMessage _ w) as [m|] eqn:Hfm; [|done]. simpl in Hmo.
  unfold handleDataPacket. rewrite (findOrCreate_found _ _ _ Hfm).
  simpl. rewrite Hmo. simpl. rewrite bool_decide_eq_true_2 by done. simpl.
  rewrite Hbuf, Hfull. do 2 f_equal.
  rewrite set_messagePool_id; [done|].
  rewrite Hmo. f_equal. destruct msg; simpl in *; congruence.
Qed.

(** Completion is kept by every returning call, whatever its packet. *)
Lemma handleDataPacket_completed_kept packet driver w w' ret id :
  completed id w →
  handleDataPacket packet driver w = Ret (w', ret) →
  completed id w' ∧ messageOf id w' = messageOf id w.
Proof.
  intros Hc Hh.
  assert (messageOf id w' = messageOf id w) as Heq;
    [|split; [|done]; unfold completed; by rewrite Heq].
  destruct (decide (messageId (payload packet) = id)) as [<-|Hne].
  { rewrite handleDataPacket_completed in Hh by done. by injection Hh as <- _. }
  destruct Hc as (msg0 & Hmo & Hid0 & _ & _).
  unfold messageOf in Hmo.
  destruct (findMessage id w) as [m0|] eqn:Hfm0; [|done]. simpl in Hmo.
  pose proof (handleDataPacket_findMessage _ _ _ _ _ _ _ Hh Hfm0) as Hfm0'.
  rewrite !(messageOf_eq _ _ m0) by done.
  destruct (handleDataPacket_Ret _ _ _ _ _ Hh)
    as (w1 & op & m & msg & Hf & Hm & Hid & Hcase).
  assert (m ≠ m0 ∧ messagePool w1 !! m0 = messagePool w !! m0) as [Hmne Hm1].
  { destruct (findOrCreate_Ret _ _ _ _ _ Hf) as [_ [[_ ->]|(_&_&Hnone&->)]].
    - split; [|done]. intros ->. congruence.
    - assert (m ≠ m0) by congruence. split; [done|]. simpl.
      by rewrite lookup_insert_ne. }
  simpl in Hcase.
  destruct (InboundMessage.fullMessageReceived msg).
  { destruct Hcase as [_ ->]. simpl. by rewrite lookup_insert_ne. }
  destruct Hcase as (s & _ & _ & _ & Hcase).
  case_decide; destruct Hcase as [_ ->]; simpl; by rewrite lookup_insert_ne.
Qed.

(** After a returning call, the message of the packet's id is live, carries
    the id and has its buffer. *)
Lemma handleDataPacket_constructed packet driver w w' ret :
  handleDataPacket packet driver w = Ret (w', ret) →
  ∃ msg', messageOf (messageId (payload packet)) w' = Some msg'
    ∧ InboundMessage.id msg' = messageId (payload packet)
    ∧ is_Some (InboundMessage.message msg').
Proof.
  intros Hh.
  destruct (handleDataPacket_Ret _ _ _ _ _ Hh)
    as (w1 & op & m & msg & Hf & Hm & Hid & Hcase).
  pose proof (findOrCreate_findMessage _ _ _ _ _ Hf) as Hfm.
  simpl in Hcase.
  destruct (InboundMessage.fullMessageReceived msg).
  { destruct Hcase as [_ ->]. eexists. rewrite (messageOf_eq _ _ m) by done.
    simpl. rewrite lookup_insert_eq. eauto. }
  destruct Hcase as (s & _ & _ & _ & Hcase).
  case_decide; destruct Hcase as [_ ->]; eexists;
    rewrite (messageOf_eq _ _ m) by done; simpl; rewrite lookup_insert_eq;
    eauto.
Qed.

Lemma handleDataPackets_completed_kept packets driver w w' rets id :
  completed id w →
  handleDataPackets packets driver w = Ret (w', rets) →
  completed id w' ∧ messageOf id w' = messageOf id w.
Proof.
  revert w rets. induction packets as [|packet rest IH]; intros w rets Hc Hh.
  - simpl in Hh. by injection Hh as <- _.
  - simpl in Hh.
    apply bind_Ret_inv in Hh as ([w1 ret] & Hstep & Hh).
    apply bind_Ret_inv in Hh as ([w2 rets'] & Hrest & Hh).
    injection Hh as <- _.
    destruct (handleDataPacket_completed_kept _ _ _ _ _ _ Hc Hstep) as [Hc1 Heq1].
    destruct (IH _ _ Hc1 Hrest) as [Hc2 Heq2]. split; [done|congruence].
Qed.

(** A run over [pre ++ packet :: post] goes through the run over [pre]. *)
Lemma handleDataPackets_app_Ret pre packet post driver w w' rets :
  handleDataPackets (pre ++ packet :: post) driver w = Ret (w', rets) →
  ∃ wa retsa wb ret retsb,
    handleDataPackets pre driver w = Ret (wa, retsa)
    ∧ handleDataPacket packet driver wa = Ret (wb, ret)
    ∧ handleDataPackets post driver wb = Ret (w', retsb)
    ∧ rets = retsa ++ ret :: retsb
    ∧ length retsa = length pre.
Proof.
  revert w rets. induction pre as [|p pre IH]; intros w rets Hh; simpl in Hh.
  - apply bind_Ret_inv in Hh as ([w1 ret] & Hstep & Hh).
    apply bind_Ret_inv in Hh as ([w2 rets'] & Hrest & Hh).
    injection Hh as <- <-. by exists w, [], w1, ret, rets'.
  - apply bind_Ret_inv in Hh as ([w1 ret] & Hstep & Hh).
    apply bind_Ret_inv in Hh as ([w2 rets'] & Hrest & Hh).
    injection Hh as <- <-.
    destruct (IH _ _ Hrest) as (wa & retsa & wb & r & retsb & Hpre & ? & ? & -> & Hlen).
    exists wa, (ret :: retsa), wb, r, retsb. simpl. rewrite Hstep. simpl.
    rewrite Hpre. simpl. rewrite Hlen. done.
Qed.

Lemma known_knownIds id w : known id w = true ↔ id ∈ knownIds w.
Proof.
  unfold known, knownIds. rewrite bool_decide_eq_true, elem_of_union.
  by rewrite !elem_of_dom.
Qed.

Lemma unknown_knownIds id w : known id w = false ↔ id ∉ knownIds w.
Proof.
  rewrite <- known_knownIds. destruct (known id w); split; congruence.
Qed.

(** What one returning call does to the FIFO, to the unregistered map and
    to the pool: nothing for a known id (up to the content of its message);
    for a new id, one fresh pool object, made the unregistered message of
    the id and pushed onto the FIFO. *)
Lemma handleDataPacket_enqueue packet driver w w' ret :
  handleDataPacket packet driver w = Ret (w', ret) →
  let id := messageId (payload packet) in
  registeredOps w' = registeredOps w
  ∧ ((id ∈ knownIds w
      ∧ receivedMessages w' = receivedMessages w
      ∧ unregisteredMessages w' = unregisteredMessages w
      ∧ dom (messagePool w') = dom (messagePool w))
     ∨ ((id ∉ knownIds w)
        ∧ ∃ m, (m ∉ dom (messagePool w))
            ∧ receivedMessages w' = receivedMessages w ++ [m]
            ∧ unregisteredMessages w' = <[id := m]> (unregisteredMessages w)
            ∧ dom (messagePool w') = dom (messagePool w) ∪ {[m]})).
Proof.
  intros Hh id.
  destruct (handleDataPacket_Ret _ _ _ _ _ Hh)
    as (w1 & op & m & msg & Hf & Hm & Hid & Hcase).
  fold id in Hf, Hid, Hcase.
  assert (∃ msg', registeredOps w' = registeredOps w1
            ∧ receivedMessages w' = receivedMessages w1
            ∧ unregisteredMessages w' = unregisteredMessages w1
            ∧ messagePool w' = <[m := msg']> (messagePool w1))
    as (msg' & Hreg & Hfifo & Hun & Hpool).
  { simpl in Hcase. destruct (InboundMessage.fullMessageReceived msg).
    { destruct Hcase as [_ ->]. by eexists. }
    destruct Hcase as (s & _ & _ & _ & Hcase).
    case_decide; destruct Hcase as [_ ->]; by eexists. }
  rewrite Hreg, Hfifo, Hun, Hpool, dom_insert_L.
  destruct (findOrCreate_Ret _ _ _ _ _ Hf) as [_ [[Hfm ->]|(Hk&_&Hnone&->)]].
  - split; [done|]. left. split.
    { apply known_knownIds. by eapply known_findMessage. }
    split; [done|]. split; [done|].
    apply elem_of_dom_2 in Hm. set_solver.
  - split; [done|]. right. split; [by apply unknown_knownIds|].
    exists m. simpl. split; [by apply not_elem_of_dom|].
    split; [done|]. split; [done|]. rewrite dom_insert_L. set_solver.
Qed.

Lemma handleDataPacket_enqueue_knownIds packet driver w w' ret :
  handleDataPacket packet driver w = Ret (w', ret) →
  knownIds w' = knownIds w ∪ {[messageId (payload packet)]}.
Proof.
  intros Hh. unfold knownIds.
  destruct (handleDataPacket_enqueue _ _ _ _ _ Hh)
    as [-> [(Hk & _ & -> & _)|(_ & m & _ & _ & -> & _)]].
  - unfold knownIds in Hk. set_solver.
  - rewrite dom_insert_L. set_solver.
Qed.

(** The same over a sequence of calls: one push, of one fresh pool object,
    for each distinct id that was not known. *)
Lemma handleDataPackets_enqueue packets driver w w' rets :
  handleDataPackets packets driver w = Ret (w', rets) →
  let ids : gset MessageId :=
    list_to_set ((λ packet, messageId (payload packet)) <$> packets) in
  unregisteredMessages w ⊆ unregisteredMessages w'
  ∧ knownIds w' = knownIds w ∪ ids
  ∧ ∃ pushed,
      receivedMessages w' = receivedMessages w ++ pushed
      ∧ NoDup pushed
      ∧ length pushed = size (ids ∖ knownIds w)
      ∧ dom (messagePool w') = dom (messagePool w) ∪ list_to_set pushed
      ∧ ∀ m, m ∈ pushed →
          (m ∉ dom (messagePool w))
          ∧ ∃ id, id ∈ ids ∖ knownIds w
                ∧ unregisteredMessages w' !! id = Some m.
Proof.
  revert w rets. induction packets as [|packet rest IH]; intros w rets Hh.
  - simpl in Hh. injection Hh as <- _. simpl. split; [done|].
    split; [set_solver|]. exists []. rewrite app_nil_r.
    split; [done|]. split; [constructor|]. split.
    { rewrite difference_disjoint_L by set_solver. by rewrite size_empty. }
    split; [set_solver|]. intros m Hin. by apply elem_of_nil in Hin.
  - simpl in Hh.
    apply bind_Ret_inv in Hh as ([w1 ret] & Hstep & Hh).
    apply bind_Ret_inv in Hh as ([w2 rets'] & Hrest & Hh).
    injection Hh as <- _.
    destruct (IH _ _ Hrest) as (Hsub & Hknown & pushed & Hfifo & Hnd & Hlen & Hdom & Hfresh).
    pose proof (handleDataPacket_enqueue_knownIds _ _ _ _ _ Hstep) as Hk1.
    set (id := messageId (payload packet)) in *.
    set (ids := list_to_set ((λ packet, messageId (payload packet)) <$> rest)
                : gset MessageId) in *.
    simpl. fold id. fold ids.
    split; [|split; [rewrite Hknown, Hk1; set_solver|]].
    { destruct (handleDataPacket_enqueue _ _ _ _ _ Hstep)
        as [_ [(_ & _ & Heq & _)|(Hnk & m & _ & _ & Heq & _)]].
      - by rewrite <- Heq.
      - etrans; [|exact Hsub]. rewrite Heq. apply insert_subseteq.
        apply not_elem_of_dom. unfold knownIds in Hnk. set_solver. }
    destruct (handleDataPacket_enqueue _ _ _ _ _ Hstep)
      as [_ [(Hk & Hf1 & Hu1 & Hd1)|(Hnk & m & Hm & Hf1 & Hu1 & Hd1)]];
      fold id in Hk1 |- *.
    + (* a known id: nothing is pushed by this call *)
      assert (knownIds w1 = knownIds w) as Hkeq by (rewrite Hk1; set_solver).
      exists pushed. rewrite Hfifo, Hf1. split; [done|]. split; [done|].
      split.
      { rewrite Hlen, Hkeq. f_equal. set_solver. }
      split; [by rewrite Hdom, Hd1|].
      intros m Hin. destruct (Hfresh m Hin) as (Hnd1 & id' & Hid' & Hun).
      split; [by rewrite <- Hd1|]. exists id'. split; [|done].
      rewrite Hkeq in Hid'. set_solver.
    + (* a new id: its message is pushed first *)
      exists (m :: pushed). rewrite Hfifo, Hf1, <- app_assoc. split; [done|].
      assert (m ∉ pushed) as Hnin.
      { intros Hin. destruct (Hfresh m Hin) as [Hn _]. rewrite Hd1 in Hn.
        set_solver. }
      split; [by constructor|]. split.
      { cbn [length]. rewrite Hlen, Hk1.
        replace (({[id]} ∪ ids) ∖ knownIds w)
          with ({[id]} ∪ (ids ∖ (knownIds w ∪ {[id]}))).
        - rewrite (size_union (C := gset MessageId) {[id]}) by set_solver.
          by rewrite size_singleton.
        - apply set_eq. intros x. rewrite !elem_of_union, !elem_of_difference,
            !elem_of_union, !elem_of_singleton.
          destruct (decide (x = id)) as [->|]; [tauto|]. tauto. }
      split; [rewrite Hdom, Hd1; set_solver|].
      intros m' [->|Hin]%elem_of_cons.
      * split; [done|]. exists id. split; [set_solver|].
        eapply lookup_weaken; [|exact Hsub]. rewrite Hu1.
        apply lookup_insert_eq.
      * destruct (Hfresh m' Hin) as (Hnd1 & id' & Hid' & Hun).
        split; [rewrite Hd1 in Hnd1; set_solver|]. exists id'.
        split; [|done]. rewrite Hk1 in Hid'. set_solver.
Qed.

(** Packets for known ids only: nothing is pushed, nothing constructed. *)
Lemma handleDataPackets_known packets driver w w' rets :
  handleDataPackets packets driver w = Ret (w', rets) →
  (∀ packet, packet ∈ packets → messageId (payload packet) ∈ knownIds w) →
  receivedMessages w' = receivedMessages w
  ∧ dom (messagePool w') = dom (messagePool w)
  ∧ unregisteredMessages w' = unregisteredMessages w.
Proof.
  revert w rets. induction packets as [|packet rest IH]; intros w rets Hh Hk.
  - simpl in Hh. by injection Hh as <- _.
  - simpl in Hh.
    apply bind_Ret_inv in Hh as ([w1 ret] & Hstep & Hh).
    apply bind_Ret_inv in Hh as ([w2 rets'] & Hrest & Hh).
    injection Hh as <- _.
    pose proof (handleDataPacket_enqueue_knownIds _ _ _ _ _ Hstep) as Hk1.
    destruct (handleDataPacket_enqueue _ _ _ _ _ Hstep)
      as [_ [(_ & Hf1 & Hu1 & Hd1)|(Hnk & _)]].
    + destruct (IH _ _ Hrest) as (Hf2 & Hd2 & Hu2).
      { intros p Hp. rewrite Hk1. apply elem_of_union_l, Hk.
        apply elem_of_cons. by right. }
      split; [congruence|]. split; congruence.
    + destruct Hnk. apply Hk. apply elem_of_cons. by left.
Qed.

(** The paths on which [handleDataPacket] stops at an assertion. *)
Lemma handleDataPacket_failed packet driver w which :
  handleDataPacket packet driver w = AssertionFailed which →
  let header := payload packet in
  let id := messageId header in
  which = InMessageNotNull
  ∨ ∃ w1 op m msg,
      findOrCreate id w = Ret (w1, op, m)
      ∧ messagePool w1 !! m = Some msg
      ∧ ((which = IdMatches ∧ InboundMessage.id msg ≠ id)
         ∨ (InboundMessage.id msg = id
            ∧ InboundMessage.fullMessageReceived msg = false
            ∧ ∃ s, sourceFor packet driver msg = Some s
                ∧ ((which = SourceMatches
                    ∧ toString s ≠ toString (address packet))
                   ∨ (which = LengthMatches
                      ∧ toString s = toString (address packet)
                      ∧ rawLength (bufferFor packet driver msg)
                        ≠ totalLength header)))).
Proof.
  unfold handleDataPacket. intros Hh. simpl.
  assert (∀ s buf (k : () → outcome (World * option OpPtr)),
            (∀ u, k u ≠ AssertionFailed which) →
            (assert SourceMatches
               (bool_decide (toString s = toString (address packet)))
             ≫= λ _, assert LengthMatches
                       (bool_decide (rawLength buf
                                     = totalLength (payload packet)))
             ≫= k) = AssertionFailed which →
            (which = SourceMatches
             ∧ toString s ≠ toString (address packet))
            ∨ (which = LengthMatches
               ∧ toString s = toString (address packet)
               ∧ rawLength buf ≠ totalLength (payload packet))) as checks.
  { intros s buf k Hk Hchk.
    destruct (decide (toString s = toString (address packet))) as [Hs|Hs].
    - rewrite (bool_decide_eq_true_2 _ Hs) in Hchk. simpl in Hchk.
      destruct (decide (rawLength buf = totalLength (payload packet)))
        as [Hl|Hl].
      + rewrite (bool_decide_eq_true_2 _ Hl) in Hchk. simpl in Hchk.
        by apply Hk in Hchk.
      + rewrite (bool_decide_eq_false_2 _ Hl) in Hchk. simpl in Hchk.
        right. by injection Hchk as <-.
    - rewrite (bool_decide_eq_false_2 _ Hs) in Hchk. simpl in Hchk.
      left. by injection Hchk as <-. }
  destruct (findOrCreate _ w) as [[[w1 op] m]|which'|] eqn:Hf;
    simpl in Hh; [| |discriminate].
  2:{ left. injection Hh as <-. unfold findOrCreate in Hf.
      destruct (registeredOps w !! _) as [op|].
      - destruct (ops w !! op) as [o|]; simpl in Hf; [|discriminate].
        destruct (inMessage o); [discriminate|]. by injection Hf as <-.
      - destruct (unregisteredMessages w !! _); discriminate. }
  right. exists w1, op, m.
  destruct (messagePool w1 !! m) as [msg|] eqn:Hm; simpl in Hh; [|discriminate].
  exists msg. split; [done|]. split; [done|].
  case_bool_decide as Hid; simpl in Hh.
  2:{ left. injection Hh as <-. split; [done|]. congruence. }
  right. split; [done|]. unfold sourceFor, bufferFor.
  destruct (InboundMessage.message msg) as [buf|] eqn:Hbuf;
    destruct (InboundMessage.fullMessageReceived msg) eqn:Hfull;
    try discriminate; (split; [done|]).
  - destruct (InboundMessage.source msg) as [s|]; simpl in Hh; [|discriminate].
    exists s. split; [done|]. eapply checks; [|exact Hh].
    intros u. unfold setPacket. destruct (decide _); simpl; [done|].
    match goal with |- context [bool_decide ?P] => by destruct (bool_decide P) end.
  - eexists. split; [done|]. simpl in Hh. eapply checks; [|exact Hh].
    intros u. unfold setPacket. destruct (decide _); simpl; [done|].
    match goal with |- context [bool_decide ?P] => by destruct (bool_decide P) end.
Qed.

Lemma findOrCreate_consistentWith L S id w w1 op m :
  findOrCreate id w = Ret (w1, op, m) →
  consistentWith L S w → consistentWith L S w1.
Proof.
  intros Hf Hc.
  destruct (findOrCreate_Ret _ _ _ _ _ Hf) as [_ [[_ ->]|(_&_&_&->)]]; [done|].
  intros m' msg' buf'. simpl. intros Hm' Hbuf'.
  destruct (decide (m' = m)) as [->|Hne].
  - rewrite lookup_insert_eq in Hm'. injection Hm' as <-. discriminate.
  - rewrite lookup_insert_ne in Hm' by done. eauto.
Qed.

Lemma consistentWith_store L S w1 w' m id buf s full :
  consistentWith L S w1 →
  rawLength buf = L id → toString s = S id →
  messagePool w'
  = <[m := InboundMessage.mk id (Some buf) (Some s) full]> (messagePool w1) →
  consistentWith L S w'.
Proof.
  intros Hc Hlen Hstr Hpool m' msg' buf'. rewrite Hpool. intros Hm' Hbuf'.
  destruct (decide (m' = m)) as [->|Hne].
  - rewrite lookup_insert_eq in Hm'. injection Hm' as <-. simpl in *.
    injection Hbuf' as <-. eauto.
  - rewrite lookup_insert_ne in Hm' by done. eauto.
Qed.

(** A packet that carries the length and the address string of its id, to
    a Receiver whose buffers carry them too, passes both sanity checks;
    the Receiver it leaves is consistent again. *)
Lemma handleDataPacket_consistent L S packet driver w :
  let header := payload packet in
  let id := messageId header in
  totalLength header = L id →
  toString (address packet) = S id →
  toString (getAddress driver (toString (address packet))) = S id →
  consistentWith L S w →
  (∀ which, handleDataPacket packet driver w = AssertionFailed which →
     which ≠ SourceMatches ∧ which ≠ LengthMatches)
  ∧ (∀ w' ret, handleDataPacket packet driver w = Ret (w', ret) →
       consistentWith L S w').
Proof.
  intros header id HL HS Hres Hc. subst header id. split.
  - intros which Hh.
    destruct (handleDataPacket_failed _ _ _ _ Hh)
      as [->|(w1 & op & m & msg & Hf & Hm & Hwhich)]; [done|].
    destruct Hwhich as [[-> _]|(Hid & _ & s & Hs & Hwhich)]; [done|].
    pose proof (findOrCreate_consistentWith L S _ _ _ _ _ Hf Hc) as Hc1.
    unfold sourceFor, bufferFor in *.
    destruct (InboundMessage.message msg) as [buf|] eqn:Hbuf.
    + destruct (Hc1 m msg buf Hm Hbuf) as (Hlen & s' & Hs' & Hstr).
      rewrite Hid in Hlen, Hstr. simplify_eq. exfalso.
      destruct Hwhich as [[_ Hne]|(_ & _ & Hne)]; congruence.
    + injection Hs as <-. unfold rawLength, Message.construct in Hwhich.
      simpl in Hwhich. exfalso.
      destruct Hwhich as [[_ Hne]|(_ & _ & Hne)]; congruence.
  - intros w' ret Hh.
    destruct (handleDataPacket_Ret _ _ _ _ _ Hh)
      as (w1 & op & m & msg & Hf & Hm & Hid & Hcase).
    pose proof (findOrCreate_consistentWith L S _ _ _ _ _ Hf Hc) as Hc1.
    set (id := messageId (payload packet)) in *.
    assert (rawLength (bufferFor packet driver msg) = L id
            ∧ ∃ s, sourceFor packet driver msg = Some s ∧ toString s = S id)
      as [Hlen (s0 & Hs0 & Hstr0)].
    { unfold sourceFor, bufferFor.
      destruct (InboundMessage.message msg) as [buf|] eqn:Hbuf.
      - destruct (Hc1 m msg buf Hm Hbuf) as (Hlen & s' & Hs' & Hstr).
        rewrite Hid in Hlen, Hstr. eauto.
      - split; [done|]. eauto. }
    simpl in Hcase. rewrite Hs0 in Hcase.
    destruct (InboundMessage.fullMessageReceived msg).
    { destruct Hcase as [_ ->]. by eapply consistentWith_store. }
    destruct Hcase as (s & _ & _ & _ & Hcase).
    case_decide; destruct Hcase as [_ ->].
    + by eapply consistentWith_store.
    + eapply consistentWith_store; [exact Hc1| |exact Hstr0|done].
      unfold setPacket. rewrite decide_False by done. exact Hlen.
Qed.


End handleDataPacket_facts.

Import Receiver.

(** C1: when [handleDataPacket] returns, it returns an op exactly when
    this packet made the message of its id fully received (it was not
    before the call and is after it) and the id is in [registeredOps];
    the op returned is the registered one.  In every other case it
    returns nullptr. *)
Theorem handleDataPacket_returns_op_iff {C : Constants} packet driver w w' ret :
  handleDataPacket packet driver w = Ret (w', ret) →
  let id := messageId (payload packet) in
  (ret ≠ None ↔
     isFull id w = false ∧ isFull id w' = true
     ∧ is_Some (registeredOps w !! id))
  ∧ (ret ≠ None → ret = registeredOps w !! id).
Proof.
  intros Hh id.
  destruct (handleDataPacket_Ret _ _ _ _ _ Hh) as (w1 & op & m & msg & Hf & Hm & Hid & Hcase).
  fold id in Hf, Hid, Hcase.
  pose proof (findOrCreate_isFull _ _ _ _ _ _ Hf Hm) as Hbefore.
  pose proof (findOrCreate_findMessage _ _ _ _ _ Hf) as Hfm.
  destruct (findOrCreate_Ret _ _ _ _ _ Hf) as [-> _].
  rewrite Hbefore. simpl in Hcase.
  destruct (InboundMessage.fullMessageReceived msg).
  { destruct Hcase as [-> _]. split; [|done]. split; [done|].
    intros [? _]; discriminate. }
  destruct Hcase as (s & _ & _ & _ & Hcase). case_decide.
  - destruct Hcase as [-> ->]. split; [|done]. split; [done|].
    intros (_ & Hfull & _). erewrite isFull_eq in Hfull; [|exact Hfm|].
    2:{ simpl. apply lookup_insert_eq. }
    discriminate.
  - destruct Hcase as [-> ->].
    erewrite (isFull_eq id); [|exact Hfm|simpl; apply lookup_insert_eq].
    simpl. case_bool_decide.
    + split; [|done]. rewrite <- not_eq_None_Some. tauto.
    + split; [|done]. split; [done|]. intros (_ & ? & _); discriminate.
Qed.

(** The scenario of [ReceiverTest.handleDataPacket_basic]: packet 0
    completes the message and the registered op 0 is returned. *)
Lemma handleDataPacket_returns_op_iff_witness :
  let packet := Tests.mockPacket Tests.id_42_32_22 0 in
  let w := Tests.basic_after_duplicate in
  let w' := Tests.basic_complete in
  let id := messageId (payload packet) in
  (Some 0%nat ≠ None ↔
     isFull id w = false ∧ isFull id w' = true
     ∧ is_Some (registeredOps w !! id))
  ∧ (Some 0%nat ≠ None → Some 0%nat = registeredOps w !! id).
Proof.
  apply (handleDataPacket_returns_op_iff (C := Tests.testConstants)
           (Tests.mockPacket Tests.id_42_32_22 0) Tests.mockDriver
           Tests.basic_after_duplicate Tests.basic_complete (Some 0%nat)).
  vm_compute. reflexivity.
Defined.

(** C5: a DATA packet whose slot is already occupied in the buffer of its
    message is released back to the driver; the Scheduler is not notified,
    nullptr is returned, and the message (its occupancy, its packet count,
    its [fullMessageReceived] flag) is as it was: the call changes nothing
    but the driver's record of released packets. *)
Theorem handleDataPacket_duplicate {C : Constants} packet driver w w' ret :
  let header := payload packet in
  let id := messageId header in
  slotOccupied id (index header) w = true →
  handleDataPacket packet driver w = Ret (w', ret) →
  ret = None
  ∧ w' = release packet w
  ∧ driverCalls w' = driverCalls w ++ [releasePackets (packetId packet)]
  ∧ schedulerCalls w' = schedulerCalls w
  ∧ messageOf id w' = messageOf id w.
Proof.
  intros header id Hocc Hh.
  destruct (handleDataPacket_Ret _ _ _ _ _ Hh)
    as (w1 & op & m & msg & Hf & Hm & Hid & Hcase).
  fold header id in Hf, Hid, Hcase.
  rewrite (findOrCreate_slotOccupied _ _ _ _ _ _ packet driver _ Hf Hm) in Hocc.
  apply bool_decide_eq_true in Hocc.
  destruct (findOrCreate_messageOf _ _ _ _ _ _ Hf Hm)
    as [(->&Hfm&Hmo)|(_&_&->)]; [|set_solver].
  assert (∃ buf, InboundMessage.message msg = Some buf) as [buf Hbuf].
  { unfold bufferFor in Hocc. destruct (InboundMessage.message msg); [eauto|].
    set_solver. }
  simpl in Hcase. unfold bufferFor, sourceFor in *. rewrite Hbuf in *.
  assert (w' = release packet w ∧ ret = None) as [-> ->].
  { destruct msg as [i b sr fl]; simpl in *; subst.
    destruct fl.
    - destruct Hcase as [-> ->]. by rewrite set_messagePool_id.
    - destruct Hcase as (s & _ & _ & _ & Hcase).
      rewrite decide_True in Hcase by done.
      destruct Hcase as [-> ->]. by rewrite set_messagePool_id. }
  done.
Qed.

(** [ReceiverTest.handleDataPacket_basic], lines 127-148: packet 1 again. *)
Lemma handleDataPacket_duplicate_witness :
  let packet := Tests.mockPacket Tests.id_42_32_22 1 in
  let w := Tests.basic_after_1 in
  let w' := Tests.basic_after_duplicate in
  let id := messageId (payload packet) in
  @None OpPtr = None
  ∧ w' = release packet w
  ∧ driverCalls w' = driverCalls w ++ [releasePackets (packetId packet)]
  ∧ schedulerCalls w' = schedulerCalls w
  ∧ messageOf id w' = messageOf id w.
Proof.
  apply (handleDataPacket_duplicate (C := Tests.testConstants)
           (Tests.mockPacket Tests.id_42_32_22 1) Tests.mockDriver
           Tests.basic_after_1 Tests.basic_after_duplicate None).
  - vm_compute. reflexivity.
  - vm_compute. reflexivity.
Defined.

(** C6: a DATA packet that is added to its message (the message was not
    fully received and the slot was free) makes [handleDataPacket] inform
    the Scheduler exactly once, with the id, the cached source address, the
    buffer's rawLength and PACKET_DATA_LENGTH * getNumPackets() (a 32-bit
    product, counted after the packet was added), and sets
    [fullMessageReceived] exactly when that total is at least rawLength.
    The source and the rawLength are the ones cached with the message when
    its buffer was constructed (by this packet, if it is the first).  The
    packet is not released. *)
Theorem handleDataPacket_added {C : Constants} packet driver w w' ret :
  let header := payload packet in
  let id := messageId header in
  isFull id w = false →
  slotOccupied id (index header) w = false →
  handleDataPacket packet driver w = Ret (w', ret) →
  ∃ msg' buf' s,
    messageOf id w' = Some msg'
    ∧ InboundMessage.message msg' = Some buf'
    ∧ InboundMessage.source msg' = Some s
    ∧ index header ∈ occupied buf'
    ∧ let totalReceivedBytes :=
        wrap32 (PACKET_DATA_LENGTH buf' * getNumPackets buf') in
      schedulerCalls w'
      = schedulerCalls w
        ++ [Scheduler.packetReceived id s (rawLength buf') totalReceivedBytes]
      ∧ InboundMessage.fullMessageReceived msg'
        = bool_decide (rawLength buf' ≤ totalReceivedBytes)
      ∧ driverCalls w' = driverCalls w
      ∧ match messageOf id w ≫= λ msg,
                (λ buf, (msg, buf)) <$> InboundMessage.message msg with
        | Some (msg, buf) =>
            (* a later packet: the source and the length are the cached ones *)
            InboundMessage.source msg = Some s
            ∧ rawLength buf' = rawLength buf
            ∧ getNumPackets buf' = getNumPackets buf + 1
        | None =>
            (* the first packet: they are taken from it *)
            s = getAddress driver (toString (address packet))
            ∧ rawLength buf' = totalLength header
            ∧ getNumPackets buf' = 1
        end.
Proof.
  intros header id Hfull Hocc Hh.
  destruct (handleDataPacket_Ret _ _ _ _ _ Hh)
    as (w1 & op & m & msg & Hf & Hm & Hid & Hcase).
  fold header id in Hf, Hid, Hcase.
  rewrite (findOrCreate_slotOccupied _ _ _ _ _ _ packet driver _ Hf Hm) in Hocc.
  apply bool_decide_eq_false in Hocc.
  rewrite (findOrCreate_isFull _ _ _ _ _ _ Hf Hm) in Hfull.
  pose proof (findOrCreate_findMessage _ _ _ _ _ Hf) as Hfm.
  simpl in Hcase. rewrite Hfull in Hcase.
  destruct Hcase as (s & Hs & _ & _ & Hcase).
  rewrite decide_False in Hcase by done. destruct Hcase as [_ ->].
  eexists _, _, s. rewrite (messageOf_eq _ _ m) by done. simpl.
  rewrite lookup_insert_eq. split; [done|]. simpl. split; [done|].
  split; [done|]. split.
  { unfold setPacket. rewrite decide_False by done. simpl. set_solver. }
  assert (schedulerCalls w1 = schedulerCalls w ∧ driverCalls w1 = driverCalls w)
    as [-> ->].
  { destruct (findOrCreate_Ret _ _ _ _ _ Hf) as [_ [[_ ->]|(_&_&_&->)]]; done. }
  split; [done|]. split; [done|]. split; [done|].
  assert (∀ buf, index header ∉ occupied buf →
            getNumPackets (setPacket (index header) packet buf).2
            = getNumPackets buf + 1) as Hnum.
  { intros buf Hn. unfold setPacket, getNumPackets.
    rewrite decide_False by done. simpl.
    rewrite size_union by set_solver. rewrite size_singleton. lia. }
  assert (∀ buf, index header ∉ occupied buf →
            rawLength (setPacket (index header) packet buf).2 = rawLength buf)
    as Hraw.
  { intros buf Hn. unfold setPacket. by rewrite decide_False. }
  unfold sourceFor, bufferFor in *.
  destruct (findOrCreate_messageOf _ _ _ _ _ _ Hf Hm)
    as [(_&_&->)|(_&->&->)]; simpl.
  - destruct (InboundMessage.message msg) as [buf|] eqn:Hbuf; simpl.
    + split; [done|]. split; [by apply Hraw|by apply Hnum].
    + injection Hs as <-. split; [done|]. split; [by rewrite Hraw|].
      rewrite Hnum by done. unfold getNumPackets, Message.construct.
      cbn [occupied]. by rewrite size_empty.
  - injection Hs as <-. split; [done|]. split; [by rewrite Hraw|].
    rewrite Hnum by done. unfold getNumPackets, Message.construct.
    cbn [occupied]. by rewrite size_empty.
Qed.

(** [ReceiverTest.handleDataPacket_basic], lines 86-121: packet 1 comes
    first, the Scheduler is told of 1000 bytes out of 1420. *)
Lemma handleDataPacket_added_witness :
  let packet := Tests.mockPacket Tests.id_42_32_22 1 in
  let w := Tests.basic in
  let w' := Tests.basic_after_1 in
  let header := payload packet in
  let id := messageId header in
  ∃ msg' buf' s,
    messageOf id w' = Some msg'
    ∧ InboundMessage.message msg' = Some buf'
    ∧ InboundMessage.source msg' = Some s
    ∧ index header ∈ occupied buf'
    ∧ let totalReceivedBytes :=
        wrap32 (PACKET_DATA_LENGTH buf' * getNumPackets buf') in
      schedulerCalls w'
      = schedulerCalls w
        ++ [Scheduler.packetReceived id s (rawLength buf') totalReceivedBytes]
      ∧ InboundMessage.fullMessageReceived msg'
        = bool_decide (rawLength buf' ≤ totalReceivedBytes)
      ∧ driverCalls w' = driverCalls w
      ∧ match messageOf id w ≫= λ msg,
                (λ buf, (msg, buf)) <$> InboundMessage.message msg with
        | Some (msg, buf) =>
            (* a later packet: the source and the length are the cached ones *)
            InboundMessage.source msg = Some s
            ∧ rawLength buf' = rawLength buf
            ∧ getNumPackets buf' = getNumPackets buf + 1
        | None =>
            (* the first packet: they are taken from it *)
            s = getAddress Tests.mockDriver (toString (address packet))
            ∧ rawLength buf' = totalLength header
            ∧ getNumPackets buf' = 1
        end.
Proof.
  apply (handleDataPacket_added (C := Tests.testConstants)
           (Tests.mockPacket Tests.id_42_32_22 1) Tests.mockDriver
           Tests.basic Tests.basic_after_1 None).
  - vm_compute. reflexivity.
  - vm_compute. reflexivity.
  - vm_compute. reflexivity.
Defined.

(** C4: once a call of [handleDataPacket] leaves the message of its
    packet's id fully received, the message stays fully received and stays
    as it is through every further sequence of calls, and every further
    DATA packet for that id is released back to the driver (the call adds
    one [releasePackets] of that packet to the calls made on the driver
    and none to those made on the Scheduler), with nullptr returned and
    nothing else changed. *)
Theorem handleDataPacket_completion_monotone {C : Constants}
    first driver w0 w1 ret0 :
  let id := messageId (payload first) in
  handleDataPacket first driver w0 = Ret (w1, ret0) →
  isFull id w1 = true →
  ∀ packets w2 rets,
    handleDataPackets packets driver w1 = Ret (w2, rets) →
    isFull id w2 = true
    ∧ messageOf id w2 = messageOf id w1
    ∧ ∀ pre packet post,
        packets = pre ++ packet :: post →
        messageId (payload packet) = id →
        ∃ wa retsa,
          handleDataPackets pre driver w1 = Ret (wa, retsa)
          ∧ handleDataPacket packet driver wa = Ret (release packet wa, None)
          ∧ rets !! length pre = Some None
          ∧ messageOf id (release packet wa) = messageOf id w1
          ∧ driverCalls (release packet wa)
            = driverCalls wa ++ [releasePackets (packetId packet)]
          ∧ schedulerCalls (release packet wa) = schedulerCalls wa.
Proof.
  intros id Hfirst Hfull packets w2 rets Hrun.
  assert (completed id w1) as Hc.
  { destruct (handleDataPacket_constructed _ _ _ _ _ Hfirst)
      as (msg' & Hmo & Hid & Hbuf).
    exists msg'. fold id in Hmo, Hid. unfold isFull in Hfull.
    rewrite Hmo in Hfull. done. }
  destruct (handleDataPackets_completed_kept _ _ _ _ _ _ Hc Hrun) as [Hc2 Heq2].
  split; [|split; [done|]].
  { unfold isFull. rewrite Heq2. exact Hfull. }
  intros pre packet post -> Hpid.
  destruct (handleDataPackets_app_Ret _ _ _ _ _ _ _ Hrun)
    as (wa & retsa & wb & ret & retsb & Hpre & Hstep & _ & -> & Hlen).
  destruct (handleDataPackets_completed_kept _ _ _ _ _ _ Hc Hpre) as [Hca Heqa].
  assert (completed (messageId (payload packet)) wa) as Hca' by by rewrite Hpid.
  rewrite (handleDataPacket_completed _ _ _ Hca') in Hstep.
  injection Hstep as <- <-.
  exists wa, retsa. split; [done|]. split; [by apply handleDataPacket_completed|].
  split; [|split; [done|split; reflexivity]].
  rewrite <- Hlen. by rewrite list_lookup_middle.
Qed.

(** [ReceiverTest.handleDataPacket_basic], lines 154-199: packet 0
    completes the message; packet 0 again is released. *)
Lemma handleDataPacket_completion_monotone_witness :
  let first := Tests.mockPacket Tests.id_42_32_22 0 in
  let id := messageId (payload first) in
  let w1 := Tests.basic_complete in
  let w2 := release first Tests.basic_complete in
  isFull id w1 = true
  ∧ isFull id w2 = true
  ∧ messageOf id w2 = messageOf id w1
  ∧ handleDataPacket (C := Tests.testConstants) first Tests.mockDriver w1
    = Ret (w2, None)
  ∧ driverCalls w2 = driverCalls w1 ++ [releasePackets (packetId first)]
  ∧ schedulerCalls w2 = schedulerCalls w1.
Proof.
  assert (handleDataPacket (C := Tests.testConstants)
            (Tests.mockPacket Tests.id_42_32_22 0) Tests.mockDriver
            Tests.basic_after_duplicate
          = Ret (Tests.basic_complete, Some 0%nat)) as Hfirst
    by (vm_compute; reflexivity).
  assert (isFull Tests.id_42_32_22 Tests.basic_complete = true) as Hfull
    by (vm_compute; reflexivity).
  assert (handleDataPackets (C := Tests.testConstants)
            [Tests.mockPacket Tests.id_42_32_22 0] Tests.mockDriver
            Tests.basic_complete
          = Ret (release (Tests.mockPacket Tests.id_42_32_22 0)
                   Tests.basic_complete, [None])) as Hrun
    by (vm_compute; reflexivity).
  destruct (handleDataPacket_completion_monotone _ _ _ _ _ Hfirst Hfull
              _ _ _ Hrun) as (Hfull2 & Hsame & Hfurther).
  destruct (Hfurther [] (Tests.mockPacket Tests.id_42_32_22 0) []
              eq_refl eq_refl)
    as (wa & retsa & Hpre & Hstep & _ & _ & Hdriver & Hscheduler).
  injection Hpre as <- _.
  split; [exact Hfull|]. split; [exact Hfull2|]. split; [exact Hsame|].
  split; [exact Hstep|]. split; [exact Hdriver|exact Hscheduler].
Defined.

(** C9: over any sequence of calls of [handleDataPacket] that return, the
    received-messages FIFO grows by exactly one entry for each distinct id
    of the sequence that was neither registered nor unregistered before:
    a pool object constructed at that moment, pushed once, and made the
    unregistered message of a new id.  Packets for ids already in
    [registeredOps] or in the unregistered map push nothing and construct
    nothing. *)
Theorem handleDataPacket_enqueues_once {C : Constants}
    packets driver w w' rets :
  handleDataPackets packets driver w = Ret (w', rets) →
  let ids : gset MessageId :=
    list_to_set ((λ packet, messageId (payload packet)) <$> packets) in
  (∃ pushed,
     receivedMessages w' = receivedMessages w ++ pushed
     ∧ NoDup pushed
     ∧ length pushed = size (ids ∖ knownIds w)
     ∧ outstandingObjects w' = (outstandingObjects w + length pushed)%nat
     ∧ ∀ m, m ∈ pushed →
         (m ∉ dom (messagePool w))
         ∧ ∃ id, id ∈ ids ∖ knownIds w
               ∧ unregisteredMessages w' !! id = Some m)
  ∧ (ids ⊆ knownIds w →
     receivedMessages w' = receivedMessages w
     ∧ dom (messagePool w') = dom (messagePool w)
     ∧ unregisteredMessages w' = unregisteredMessages w).
Proof.
  intros Hrun ids.
  destruct (handleDataPackets_enqueue _ _ _ _ _ Hrun)
    as (Hsub & Hknown & pushed & Hfifo & Hnd & Hlen & Hdom & Hfresh).
  fold ids in Hknown, Hlen, Hfresh.
  split.
  - exists pushed. split; [done|]. split; [done|]. split; [done|].
    split; [|done].
    unfold outstandingObjects. rewrite <- !size_dom, Hdom.
    rewrite size_union.
    + by rewrite size_list_to_set.
    + intros m Hin1 Hin2. apply elem_of_list_to_set in Hin2.
      by destruct (Hfresh m Hin2).
  - intros Hids.
    clear Hfifo.
    apply (handleDataPackets_known _ _ _ _ _ Hrun).
    intros packet Hin. apply Hids. unfold ids.
    apply elem_of_list_to_set, list_elem_of_fmap. eauto.
Qed.

(** [ReceiverTest.handleDataPacket_newUnregistered] and a second packet of
    the same message: one message is pushed, by the first packet. *)
Lemma handleDataPacket_enqueues_once_witness :
  let packets :=
    [Tests.mockPacket Tests.id_42_32_22 1; Tests.mockPacket Tests.id_42_32_22 0] in
  let w := Tests.empty in
  let w' := Tests.unregistered_complete in
  let ids : gset MessageId :=
    list_to_set ((λ packet, messageId (payload packet)) <$> packets) in
  (∃ pushed,
     receivedMessages w' = receivedMessages w ++ pushed
     ∧ NoDup pushed
     ∧ length pushed = size (ids ∖ knownIds w)
     ∧ outstandingObjects w' = (outstandingObjects w + length pushed)%nat
     ∧ ∀ m, m ∈ pushed →
         (m ∉ dom (messagePool w))
         ∧ ∃ id, id ∈ ids ∖ knownIds w
               ∧ unregisteredMessages w' !! id = Some m)
  ∧ (ids ⊆ knownIds w →
     receivedMessages w' = receivedMessages w
     ∧ dom (messagePool w') = dom (messagePool w)
     ∧ unregisteredMessages w' = unregisteredMessages w).
Proof.
  apply (handleDataPacket_enqueues_once (C := Tests.testConstants)
           [Tests.mockPacket Tests.id_42_32_22 1;
            Tests.mockPacket Tests.id_42_32_22 0]
           Tests.mockDriver Tests.empty Tests.unregistered_complete
           [None; None]).
  vm_compute. reflexivity.
Defined.




(** ** [registerOp] *)

(** C2, as the code has it: for an id with an unregistered message,
    [registerOp] (called with a live op) makes the op's [inMessage] that
    message and removes the id from the unregistered map; it does not touch
    the received-messages FIFO (nor the pool), so the FIFO holds the
    message afterwards exactly when it held it before. *)
Theorem registerOp_existing_message id op w m :
  unregisteredMessages w !! id = Some m →
  is_Some (ops w !! op) →
  ∃ w', registerOp id op w = Ret w'
    ∧ ops w' !! op ≫= inMessage = Some m
    ∧ unregisteredMessages w' !! id = None
    ∧ receivedMessages w' = receivedMessages w
    ∧ messagePool w' = messagePool w
    ∧ (m ∈ receivedMessages w' ↔ m ∈ receivedMessages w).
Proof.
  intros Hun [o Ho]. unfold registerOp. rewrite Hun. simpl. rewrite Ho. simpl.
  eexists. split; [done|]. simpl. rewrite lookup_insert_eq. simpl.
  split; [done|]. split; [apply lookup_delete_eq|]. done.
Qed.

(** Scenario 3 of the spec, up to the registration. *)
Lemma registerOp_existing_message_witness :
  ∃ w', registerOp Tests.id_42_32_22 0%nat Tests.unregistered = Ret w'
    ∧ ops w' !! 0%nat ≫= inMessage = Some 0%nat
    ∧ unregisteredMessages w' !! Tests.id_42_32_22 = None
    ∧ receivedMessages w' = receivedMessages Tests.unregistered
    ∧ messagePool w' = messagePool Tests.unregistered
    ∧ (0%nat ∈ receivedMessages w' ↔ 0%nat ∈ receivedMessages Tests.unregistered).
Proof.
  apply (registerOp_existing_message Tests.id_42_32_22 0%nat
           Tests.unregistered 0%nat).
  - vm_compute. reflexivity.
  - exists (Tests.newOp false). vm_compute. reflexivity.
Defined.

(** C2 as stated fails on scenario 3 of the spec: message 0 is created by a
    DATA packet for the unregistered id (42, 32, 22) and is on the FIFO;
    after [registerOp] the op has adopted it, the unregistered map has lost
    the id, and the FIFO still holds the message. *)
Lemma registerOp_fifo_counterexample :
  unregisteredMessages Tests.unregistered !! Tests.id_42_32_22 = Some 0%nat
  ∧ receivedMessages Tests.unregistered = [0%nat]
  ∧ ∃ w', registerOp Tests.id_42_32_22 0%nat Tests.unregistered = Ret w'
      ∧ ops w' !! 0%nat ≫= inMessage = Some 0%nat
      ∧ unregisteredMessages w' !! Tests.id_42_32_22 = None
      ∧ 0%nat ∈ receivedMessages w'.
Proof.
  split; [vm_compute; reflexivity|]. split; [vm_compute; reflexivity|].
  eexists. split; [vm_compute; reflexivity|].
  split; [vm_compute; reflexivity|]. split; [vm_compute; reflexivity|].
  simpl. apply elem_of_cons. by left.
Qed.

(** ** The Transport *)

Section Transport_facts.
Context {C : Constants}.
Import Transport.

Lemma world_hintUpdate op t : world (hintUpdate op t) = world t.
Proof. unfold hintUpdate. by case_bool_decide. Qed.

Lemma inbound_Ret o t m msg :
  inMessage o = Some m → messagePool (world t) !! m = Some msg →
  inbound o t = Ret msg.
Proof. unfold inbound. intros -> Hm. simpl. by rewrite Hm. Qed.

(** A terminal op that is retained: [processUpdates] changes nothing. *)
Lemma processUpdates_retained_terminal driver op t o :
  ops (world t) !! op = Some o →
  state o = COMPLETED ∨ state o = FAILED →
  retained o = true →
  processUpdates driver op t = Ret t.
Proof.
  intros Ho Hst Hret. unfold processUpdates. rewrite Ho. simpl.
  destruct (destroy o); [done|]. rewrite Hret. simpl.
  destruct (isServerOp o); by destruct Hst as [-> | ->].
Qed.

(** An op that is not retained and is dropped: [destroy] is set. *)
Lemma drop_destroy op t o :
  ops (world t) !! op = Some o →
  ∃ t', drop op t = Ret t'
    ∧ destroy <$> ops (world t') !! op = Some true
    ∧ state <$> ops (world t') !! op = Some (state o).
Proof.
  intros Ho. unfold drop. rewrite Ho. simpl.
  destruct (destroy o) eqn:Hd.
  - exists t. rewrite Ho. simpl. by rewrite Hd.
  - eexists. split; [done|]. simpl. by rewrite lookup_insert_eq.
Qed.

(** The first bullet of section 4.5: nothing happens to an op that is
    marked for destruction. *)
Lemma processUpdates_destroyed driver op t o :
  ops (world t) !! op = Some o →
  destroy o = true →
  processUpdates driver op t = Ret t.
Proof.
  intros Ho Hd. unfold processUpdates. rewrite Ho. simpl. by rewrite Hd.
Qed.

(** The second and third parts of the third bullet: a server-role op in
    state IN_PROGRESS that is not marked for destruction, whose outbound
    message is done and whose inbound message is live. *)
Lemma processUpdates_IN_PROGRESS_done driver op t o m msg :
  ops (world t) !! op = Some o →
  isServerOp o = true →
  state o = IN_PROGRESS →
  destroy o = false →
  isDone (outMessage o) = true →
  inMessage o = Some m →
  messagePool (world t) !! m = Some msg →
  let inId := InboundMessage.id msg in
  let p := nextPacket driver (driverCalls (world t)) in
  ∃ t', processUpdates driver op t = Ret t'
    ∧ state <$> ops (world t') !! op = Some COMPLETED
    ∧ driverCalls (world t')
      = driverCalls (world t)
        ++ (if bool_decide (tag inId = INITIAL_REQUEST_TAG) then []
            else [allocPacket p; sendPackets p DONE inId; releasePackets p]).
Proof.
  intros Ho Hserver Hstate Hdestroy Hdone Hin Hm inId p.
  unfold processUpdates.
  rewrite Ho. simpl. rewrite Hdestroy, Hserver, Hstate, Hdone.
  erewrite inbound_Ret; [|exact Hin|].
  2:{ rewrite world_hintUpdate. exact Hm. }
  simpl. fold inId. case_bool_decide.
  - eexists. split; [done|]. rewrite world_hintUpdate. simpl.
    rewrite lookup_insert_eq. split; [done|]. by rewrite app_nil_r.
  - eexists. split; [done|]. simpl. rewrite world_hintUpdate. simpl.
    rewrite lookup_insert_eq. done.
Qed.

(** What [registerOp] does to the operation contexts. *)
Lemma registerOp_ops id op w w' :
  registerOp id op w = Ret w' →
  ∃ o message,
    ops w !! op = Some o
    ∧ ops w' = <[op := set_inMessage (Some message) o]> (ops w).
Proof.
  unfold registerOp. intros Hr.
  destruct (unregisteredMessages w !! id) as [message|].
  - apply bind_Ret_inv in Hr as (o & Ho%deref_Ret_inv & Hr).
    injection Hr as <-. by exists o, message.
  - apply bind_Ret_inv in Hr as (o & Ho%deref_Ret_inv & Hr).
    injection Hr as <-. by eexists o, _.
Qed.

(** An entry of the operation contexts after one of them was replaced. *)
Lemma destroyed_terminal_insert t op o1 (contexts : gmap OpPtr OpContext) :
  destroyed_terminal t →
  (∀ op', op' ≠ op → contexts !! op' = ops (world t) !! op') →
  contexts !! op = Some o1 →
  (destroy o1 = true → isServerOp o1 = true →
   state o1 = COMPLETED ∨ state o1 = FAILED) →
  ∀ op' o',
    contexts !! op' = Some o' →
    destroy o' = true →
    isServerOp o' = true →
    state o' = COMPLETED ∨ state o' = FAILED.
Proof.
  intros Hinv Hother Hop Ho1 op' o' Ho' Hd Hs.
  destruct (decide (op' = op)) as [->|Hne].
  - rewrite Hop in Ho'. injection Ho' as <-. auto.
  - rewrite (Hother _ Hne) in Ho'. eauto.
Qed.

(** [processUpdates] marks a server-role op for destruction in a terminal
    state only. *)
Lemma processUpdates_destroyed_terminal driver op t t' :
  destroyed_terminal t →
  processUpdates driver op t = Ret t' →
  destroyed_terminal t'.
Proof.
  intros Hinv Hp. unfold processUpdates in Hp.
  apply bind_Ret_inv in Hp as (o & Ho%deref_Ret_inv & Hp).
  assert (∀ o1,
            (destroy o1 = true → isServerOp o1 = true →
             state o1 = COMPLETED ∨ state o1 = FAILED) →
            ∀ t1, ops (world t1) = <[op := o1]> (ops (world t)) →
                  destroyed_terminal t1) as Hset.
  { intros o1 Ho1 t1 Hops op' o'. rewrite Hops.
    apply (destroyed_terminal_insert t op o1); [done| |apply lookup_insert_eq|done].
    intros op'' Hne. by apply lookup_insert_ne. }
  assert (∀ t1, drop op t = Ret t1 → destroy o = false →
                (isServerOp o = true →
                 state o = COMPLETED ∨ state o = FAILED) →
                destroyed_terminal t1) as Hdrop.
  { intros t1 Hd Hdo Hst. unfold drop in Hd. rewrite Ho in Hd. simpl in Hd.
    rewrite Hdo in Hd. injection Hd as <-.
    apply (Hset (set_destroy true o)); [|done]. simpl. auto. }
  destruct (destroy o) eqn:Hdo; [by injection Hp as <-|].
  destruct (isServerOp o) eqn:Hso.
  - destruct (state o) eqn:Hst.
    + apply bind_Ret_inv in Hp as (msg & _ & Hp).
      destruct (InboundMessage.isReady msg); injection Hp as <-; [|done].
      apply (Hset (set_state IN_PROGRESS o)).
      * simpl. congruence.
      * by rewrite world_hintUpdate.
    + destruct (isDone (outMessage o)); [|by injection Hp as <-].
      apply bind_Ret_inv in Hp as (msg & _ & Hp).
      case_bool_decide; injection Hp as <-;
        apply (Hset (set_state COMPLETED o)); simpl;
        try congruence; by rewrite ?world_hintUpdate.
    + destruct (retained o); [by injection Hp as <-|].
      apply (Hdrop _ Hp); auto.
    + destruct (retained o); [by injection Hp as <-|].
      apply (Hdrop _ Hp); auto.
  - destruct (retained o); simpl in Hp.
    2:{ apply (Hdrop _ Hp); [done|]. congruence. }
    destruct (state o); try by injection Hp as <-.
    apply bind_Ret_inv in Hp as (msg & _ & Hp).
    destruct (InboundMessage.isReady msg); injection Hp as <-; [|done].
    apply (Hset (set_state COMPLETED o)).
    + simpl. congruence.
    + by rewrite world_hintUpdate.
Qed.

(** [sendRequest] changes the context of a client-role op only. *)
Lemma sendRequest_destroyed_terminal op destination t t' :
  destroyed_terminal t →
  sendRequest op destination t = Ret t' →
  destroyed_terminal t'.
Proof.
  intros Hinv Hp. unfold sendRequest in Hp.
  apply bind_Ret_inv in Hp as (o & Ho%deref_Ret_inv & Hp).
  destruct (isServerOp o) eqn:Hso.
  - apply bind_Ret_inv in Hp as (msg & _ & Hp). by injection Hp as <-.
  - simpl in Hp.
    apply bind_Ret_inv in Hp as (w & Hw & Hp).
    apply bind_Ret_inv in Hp as (o2 & Ho2%deref_Ret_inv & Hp).
    injection Hp as <-. simpl in Ho2.
    destruct (registerOp_ops _ _ _ _ Hw) as (o1 & message & Ho1 & Hops).
    simpl in Ho1. rewrite Ho in Ho1. injection Ho1 as <-.
    rewrite Hops, lookup_insert_eq in Ho2. injection Ho2 as <-.
    intros op' o'. simpl. rewrite Hops.
    apply (destroyed_terminal_insert t op
             (set_state IN_PROGRESS (set_inMessage (Some message) o)));
      [done| |apply lookup_insert_eq|simpl; congruence].
    intros op'' Hne. by rewrite !lookup_insert_ne.
Qed.

(** In every state the life cycle reaches, a server-role op that is marked
    for destruction is in a terminal state. *)
Lemma reachable_destroyed_terminal driver t :
  reachable driver t → destroyed_terminal t.
Proof.
  induction 1 as [t Hnew|op t t' _ IH Hp|op destination t t' _ IH Hp
                  |t t' _ IH Hout].
  - intros op o Ho Hd. rewrite (Hnew _ _ Ho) in Hd. discriminate.
  - by eapply processUpdates_destroyed_terminal.
  - by eapply sendRequest_destroyed_terminal.
  - intros op o' Ho' Hd Hs.
    destruct (Hout _ _ Ho' Hd) as (o & Ho & Hdo & Hrole & Hstate).
    rewrite Hstate. apply (IH _ _ Ho Hdo). congruence.
Qed.

End Transport_facts.

(** C3, as the test has it: for a server-role op with a live inbound
    message, [sendRequest] asks the Sender once, with [expectAck = true],
    for the id of the inbound message (same transport id and op sequence)
    with its tag incremented by one; the Receiver is left as it is. *)
Theorem sendRequest_server_op {C : Constants} op destination t o m msg :
  ops (Transport.world t) !! op = Some o →
  isServerOp o = true →
  inMessage o = Some m →
  messagePool (Transport.world t) !! m = Some msg →
  let inId := InboundMessage.id msg in
  ∃ t', Transport.sendRequest op destination t = Ret t'
    ∧ Transport.senderCalls t'
      = Transport.senderCalls t
        ++ [Sender.sendMessage
              (mkMessageId (transportId inId) (sequence inId)
                 (tag_incr (tag inId)))
              destination op true]
    ∧ Transport.world t' = Transport.world t.
Proof.
  intros Ho Hserver Hin Hm inId. unfold Transport.sendRequest.
  rewrite Ho. simpl. rewrite Hserver.
  rewrite (inbound_Ret _ _ _ _ Hin Hm). simpl. eauto.
Qed.

(** [TransportTest.sendRequest_ServerOp]: the inbound message carries
    (22, 42, 2) and the Sender is asked for (22, 42, 3). *)
Lemma sendRequest_server_op_witness :
  let inId := mkMessageId 22 42 2 in
  let t := Tests.serverOpTransport inId (Tests.newOp true) in
  ∃ t', Transport.sendRequest (C := Tests.testConstants) 0%nat
          Tests.destination t = Ret t'
    ∧ Transport.senderCalls t'
      = Transport.senderCalls t
        ++ [Sender.sendMessage
              (mkMessageId (transportId inId) (sequence inId)
                 (tag_incr (C := Tests.testConstants) (tag inId)))
              Tests.destination 0%nat true]
    ∧ Transport.world t' = Transport.world t.
Proof.
  apply (sendRequest_server_op (C := Tests.testConstants) 0%nat
           Tests.destination
           (Tests.serverOpTransport (mkMessageId 22 42 2) (Tests.newOp true))
           (set_inMessage (Some 0%nat) (Tests.newOp true)) 0%nat
           (InboundMessage.new (mkMessageId 22 42 2))).
  - vm_compute. reflexivity.
  - reflexivity.
  - reflexivity.
  - vm_compute. reflexivity.
Defined.

(** Whatever [Transport::sendRequest] is, if it passes the repository's
    test then, on the test's op, it asks the Sender for the inbound's id
    with the tag incremented, which is not the tag decremented. *)
Lemma sendRequest_ServerOp_fixes_tag impl :
  Tests.sendRequest_ServerOp impl = true →
  let inId := mkMessageId 22 42 2 in
  ∃ t', impl 0%nat Tests.destination
          (Tests.serverOpTransport inId (Tests.newOp true)) = Ret t'
    ∧ Transport.senderCalls t'
      = [Sender.sendMessage
           (set_tag (tag_incr (C := Tests.testConstants) (tag inId)) inId)
           Tests.destination 0%nat true]
    ∧ Transport.senderCalls t'
      ≠ [Sender.sendMessage
           (set_tag (tag_decr (C := Tests.testConstants) (tag inId)) inId)
           Tests.destination 0%nat true].
Proof.
  intros Htest inId. unfold Tests.sendRequest_ServerOp in Htest.
  change (set_tag (tag_decr (tag Tests.expectedId)) Tests.expectedId)
    with inId in Htest.
  destruct (impl _ _ _) as [t'| |]; [|discriminate..].
  apply bool_decide_eq_true in Htest. exists t'. split; [done|].
  rewrite Htest. split; [reflexivity|]. vm_compute. discriminate.
Qed.

(** C3 as stated fails on the repository's own test: the model of
    [sendRequest] passes [TransportTest.sendRequest_ServerOp]; there the
    inbound message carries (22, 42, 2) and the Sender is asked for
    (22, 42, 3), where decrementing the inbound's tag gives (22, 42, 1). *)
Lemma sendRequest_ServerOp_counterexample :
  Tests.sendRequest_ServerOp
    (Transport.sendRequest (C := Tests.testConstants)) = true
  ∧ ∃ t', Transport.sendRequest (C := Tests.testConstants) 0%nat
            Tests.destination
            (Tests.serverOpTransport (mkMessageId 22 42 2) (Tests.newOp true))
          = Ret t'
      ∧ Transport.senderCalls t'
        = [Sender.sendMessage (mkMessageId 22 42 3) Tests.destination 0%nat true]
      ∧ set_tag (tag_decr (C := Tests.testConstants) 2) (mkMessageId 22 42 2)
        = mkMessageId 22 42 1
      ∧ mkMessageId 22 42 3 ≠ mkMessageId 22 42 1.
Proof.
  split; [vm_compute; reflexivity|]. eexists.
  split; [vm_compute; reflexivity|]. split; [reflexivity|].
  split; [vm_compute; reflexivity|]. discriminate.
Qed.

(** C7: for every server-role op in state IN_PROGRESS whose outbound
    message is done, in any state the operation life cycle reaches and
    with the op's inbound message live, [processUpdates] moves the op to
    COMPLETED; it makes no call on the driver when the inbound's tag is
    INITIAL_REQUEST_TAG, and otherwise allocates a packet, sends it as a
    DONE for the inbound's id and then releases it. *)
Theorem processUpdates_server_done {C : Constants} driver op t o m msg :
  Transport.reachable driver t →
  ops (Transport.world t) !! op = Some o →
  isServerOp o = true →
  state o = IN_PROGRESS →
  isDone (outMessage o) = true →
  inMessage o = Some m →
  messagePool (Transport.world t) !! m = Some msg →
  let inId := InboundMessage.id msg in
  let p := nextPacket driver (driverCalls (Transport.world t)) in
  ∃ t', Transport.processUpdates driver op t = Ret t'
    ∧ state <$> ops (Transport.world t') !! op = Some COMPLETED
    ∧ driverCalls (Transport.world t')
      = driverCalls (Transport.world t)
        ++ (if bool_decide (tag inId = INITIAL_REQUEST_TAG) then []
            else [allocPacket p; sendPackets p DONE inId; releasePackets p]).
Proof.
  intros Hreach Ho Hserver Hstate Hdone Hin Hm.
  apply (processUpdates_IN_PROGRESS_done driver op t o m msg); try done.
  destruct (destroy o) eqn:Hdestroy; [|done].
  destruct (reachable_destroyed_terminal _ _ Hreach _ _ Ho Hdestroy Hserver);
    congruence.
Qed.

(** [TransportTest.Op_processUpdates_ServerOp_IN_PROGRESS_done_sendDone]:
    the inbound's tag is INITIAL_REQUEST_TAG + 1. *)
Lemma processUpdates_server_done_witness :
  let inId := mkMessageId 42 32 2 in
  let t := Tests.serverOpTransport inId (Tests.opIn true IN_PROGRESS false false) in
  let p := nextPacket Tests.mockDriver (driverCalls (Transport.world t)) in
  ∃ t', Transport.processUpdates (C := Tests.testConstants) Tests.mockDriver
          0%nat t = Ret t'
    ∧ state <$> ops (Transport.world t') !! 0%nat = Some COMPLETED
    ∧ driverCalls (Transport.world t')
      = driverCalls (Transport.world t)
        ++ (if bool_decide
                 (tag inId = INITIAL_REQUEST_TAG (Constants := Tests.testConstants))
            then []
            else [allocPacket p; sendPackets p DONE inId; releasePackets p]).
Proof.
  apply (processUpdates_server_done (C := Tests.testConstants)
           Tests.mockDriver 0%nat
           (Tests.serverOpTransport (mkMessageId 42 32 2)
              (Tests.opIn true IN_PROGRESS false false))
           (set_inMessage (Some 0%nat) (Tests.opIn true IN_PROGRESS false false))
           0%nat (InboundMessage.new (mkMessageId 42 32 2))).
  - apply Transport.reachable_constructed. intros op o Ho.
    unfold Tests.serverOpTransport in Ho. simpl in Ho.
    apply lookup_singleton_Some in Ho as [_ <-]. reflexivity.
  - vm_compute. reflexivity.
  - reflexivity.
  - reflexivity.
  - reflexivity.
  - reflexivity.
  - vm_compute. reflexivity.
Defined.

(** C8: for an op in a terminal state (COMPLETED or FAILED), whatever its
    role: if it is not retained, [processUpdates] returns with [destroy]
    set; if it is retained, [processUpdates] changes nothing, however often
    it is called, so [destroy] is never set by it. *)
Theorem processUpdates_retention {C : Constants} driver op t o :
  ops (Transport.world t) !! op = Some o →
  state o = COMPLETED ∨ state o = FAILED →
  (retained o = false →
   ∃ t', Transport.processUpdates driver op t = Ret t'
     ∧ destroy <$> ops (Transport.world t') !! op = Some true
     ∧ state <$> ops (Transport.world t') !! op = Some (state o))
  ∧ (retained o = true →
     ∀ n, Transport.processUpdatesN n driver op t = Ret t).
Proof.
  intros Ho Hst. split.
  - intros Hret. unfold Transport.processUpdates. rewrite Ho. simpl.
    destruct (destroy o) eqn:Hd.
    { exists t. rewrite Ho. simpl. by rewrite Hd. }
    rewrite Hret. simpl.
    destruct (drop_destroy _ _ _ Ho) as (t' & Hdrop & Hd' & Hs').
    exists t'. split; [|done].
    destruct (isServerOp o); [|done]. by destruct Hst as [-> | ->].
  - intros Hret n. induction n as [|n IH]; [done|]. simpl.
    rewrite (processUpdates_retained_terminal _ _ _ _ Ho Hst Hret). simpl.
    exact IH.
Qed.

(** [TransportTest.Op_processUpdates_ServerOp_COMPLETED], not retained,
    and [TransportTest.Op_processUpdates_RemoteOp_FAILED], retained. *)
Lemma processUpdates_retention_witness :
  let t1 :=
    Tests.serverOpTransport (mkMessageId 42 32 1)
      (Tests.opIn true COMPLETED false false) in
  let t2 :=
    Tests.serverOpTransport (mkMessageId 42 32 1)
      (Tests.opIn false FAILED true false) in
  (∃ t', Transport.processUpdates (C := Tests.testConstants) Tests.mockDriver
           0%nat t1 = Ret t'
     ∧ destroy <$> ops (Transport.world t') !! 0%nat = Some true
     ∧ state <$> ops (Transport.world t') !! 0%nat = Some COMPLETED)
  ∧ (∀ n, Transport.processUpdatesN (C := Tests.testConstants) n
            Tests.mockDriver 0%nat t2 = Ret t2).
Proof.
  split.
  - refine (proj1 (processUpdates_retention (C := Tests.testConstants)
                     Tests.mockDriver 0%nat
                     (Tests.serverOpTransport (mkMessageId 42 32 1)
                        (Tests.opIn true COMPLETED false false))
                     (set_inMessage (Some 0%nat)
                        (Tests.opIn true COMPLETED false false)) _ _) _).
    + vm_compute. reflexivity.
    + left. reflexivity.
    + reflexivity.
  - refine (proj2 (processUpdates_retention (C := Tests.testConstants)
                     Tests.mockDriver 0%nat
                     (Tests.serverOpTransport (mkMessageId 42 32 1)
                        (Tests.opIn false FAILED true false))
                     (set_inMessage (Some 0%nat)
                        (Tests.opIn false FAILED true false)) _ _) _).
    + vm_compute. reflexivity.
    + right. reflexivity.
    + reflexivity.
Defined.

(** ** The tests of the repository, replayed on the embedding *)

(** [ReceiverTest.handleDataPacket_basic]: packet 1, packet 1 again,
    packet 0, packet 0 again. *)
Example ReceiverTest_handleDataPacket_basic :
  let id := Tests.id_42_32_22 in
  ∃ w, handleDataPackets (C := Tests.testConstants)
         [Tests.mockPacket id 1; Tests.mockPacket id 1;
          Tests.mockPacket id 0; Tests.mockPacket id 0]
         Tests.mockDriver Tests.basic
       = Ret (w, [None; None; Some 0%nat; None])
    ∧ unregisteredMessages w = ∅
    ∧ receivedMessages w = []
    ∧ driverCalls w = [releasePackets 0; releasePackets 0]
    ∧ schedulerCalls w
      = [Scheduler.packetReceived id Tests.mockAddress 1420 1000;
         Scheduler.packetReceived id Tests.mockAddress 1420 2000]
    ∧ isFull id w = true.
Proof. eexists. repeat split; vm_compute; reflexivity. Qed.

(** [ReceiverTest.handleDataPacket_basic], lines 112-121: the message
    after packet 1. *)
Example ReceiverTest_handleDataPacket_basic_first :
  ∃ msg buf,
    messageOf Tests.id_42_32_22 Tests.basic_after_1 = Some msg
    ∧ InboundMessage.message msg = Some buf
    ∧ InboundMessage.source msg = Some Tests.mockAddress
    ∧ messageLength buf = 1420
    ∧ 1 ∈ occupied buf
    ∧ getNumPackets buf = 1
    ∧ PACKET_DATA_LENGTH buf = 1000
    ∧ InboundMessage.fullMessageReceived msg = false.
Proof.
  eexists _, _. split; [vm_compute; reflexivity|]. split; [reflexivity|].
  split; [reflexivity|]. split; [reflexivity|]. split; [set_solver|].
  split; [vm_compute; reflexivity|]. split; reflexivity.
Qed.

(** [ReceiverTest.handleDataPacket_existingUnregistered]. *)
Example ReceiverTest_handleDataPacket_existingUnregistered :
  let id := Tests.id_42_32_22 in
  let w :=
    set_unregisteredMessages <[id := 0%nat]>
      (set_messagePool <[0%nat := InboundMessage.new id]>
         (Receiver_new ∅)) in
  ∃ w', handleDataPacket (C := Tests.testConstants) (Tests.mockPacket id 1)
          Tests.mockDriver w = Ret (w', None)
    ∧ outstandingObjects w' = 1%nat
    ∧ size (unregisteredMessages w') = 1%nat
    ∧ unregisteredMessages w' !! id = Some 0%nat
    ∧ receivedMessages w' = [].
Proof. eexists. repeat split; vm_compute; reflexivity. Qed.

(** [ReceiverTest.handleDataPacket_newUnregistered]. *)
Example ReceiverTest_handleDataPacket_newUnregistered :
  let id := Tests.id_42_32_22 in
  ∃ w', handleDataPacket (C := Tests.testConstants) (Tests.mockPacket id 1)
          Tests.mockDriver (Receiver_new ∅) = Ret (w', None)
    ∧ outstandingObjects w' = 1%nat
    ∧ InboundMessage.id <$> (unregisteredMessages w' !! id
                              ≫= λ m, messagePool w' !! m) = Some id
    ∧ InboundMessage.id <$> (head (receivedMessages w')
                              ≫= λ m, messagePool w' !! m) = Some id.
Proof. eexists. repeat split; vm_compute; reflexivity. Qed.

(** [ReceiverTest.receiveMessage]. *)
Example ReceiverTest_receiveMessage :
  let w := set_receivedMessages (λ _, [0%nat; 1%nat]) (Receiver_new ∅) in
  let '(w1, r1) := receiveMessage w in
  let '(w2, r2) := receiveMessage w1 in
  let '(w3, r3) := receiveMessage w2 in
  r1 = Some 0%nat ∧ receivedMessages w1 = [1%nat]
  ∧ r2 = Some 1%nat ∧ receivedMessages w2 = []
  ∧ r3 = None ∧ receivedMessages w3 = [].
Proof. repeat split. Qed.

(** [ReceiverTest.dropMessage]. *)
Example ReceiverTest_dropMessage :
  let id := mkMessageId 42 32 0 in
  let w :=
    set_unregisteredMessages <[id := 0%nat]>
      (set_messagePool <[0%nat := InboundMessage.new id]>
         (Receiver_new ∅)) in
  ∃ w', dropMessage 0%nat w = Ret w'
    ∧ outstandingObjects w' = 0%nat
    ∧ unregisteredMessages w' !! id = None.
Proof. eexists. repeat split; vm_compute; reflexivity. Qed.

(** [ReceiverTest.registerOp_existingMessage]. *)
Example ReceiverTest_registerOp_existingMessage :
  let id := mkMessageId 42 32 1 in
  let w :=
    set_unregisteredMessages <[id := 0%nat]>
      (set_messagePool <[0%nat := InboundMessage.new id]>
         (Receiver_new {[ 0%nat := Tests.newOp false ]})) in
  ∃ w', registerOp id 0%nat w = Ret w'
    ∧ outstandingObjects w' = 1%nat
    ∧ registeredOps w' !! id = Some 0%nat
    ∧ InboundMessage.id <$> ((ops w' !! 0%nat ≫= inMessage)
                              ≫= λ m, messagePool w' !! m) = Some id
    ∧ unregisteredMessages w' !! id = None.
Proof. eexists. repeat split; vm_compute; reflexivity. Qed.

(** [ReceiverTest.registerOp_newMessage]. *)
Example ReceiverTest_registerOp_newMessage :
  let id := mkMessageId 42 32 0 in
  let w := Receiver_new {[ 0%nat := Tests.newOp false ]} in
  ∃ w', registerOp id 0%nat w = Ret w'
    ∧ outstandingObjects w' = 1%nat
    ∧ registeredOps w' !! id = Some 0%nat
    ∧ InboundMessage.id <$> ((ops w' !! 0%nat ≫= inMessage)
                              ≫= λ m, messagePool w' !! m) = Some id.
Proof. eexists. repeat split; vm_compute; reflexivity. Qed.

(** [ReceiverTest.dropOp]. *)
Example ReceiverTest_dropOp :
  let id := mkMessageId 42 32 1 in
  let w :=
    set_registeredOps <[id := 0%nat]>
      (set_messagePool <[0%nat := InboundMessage.new id]>
         (Receiver_new
            {[ 0%nat := set_inMessage (Some 0%nat) (Tests.newOp false) ]})) in
  ∃ w', dropOp 0%nat w = Ret w'
    ∧ outstandingObjects w' = 0%nat
    ∧ registeredOps w' !! id = None.
Proof. eexists. repeat split; vm_compute; reflexivity. Qed.

(** [TransportTest.Op_processUpdates_ServerOp_NOT_STARTED], once the
    inbound message is fully received. *)
Example TransportTest_Op_processUpdates_ServerOp_NOT_STARTED :
  let t :=
    Transport.set_world
      (set_messagePool
         <[0%nat := InboundMessage.mk (mkMessageId 42 32 1) None None true]>)
      (Tests.serverOpTransport (mkMessageId 42 32 1) (Tests.newOp true)) in
  ∃ t', Transport.processUpdates (C := Tests.testConstants) Tests.mockDriver
          0%nat t = Ret t'
    ∧ state <$> ops (Transport.world t') !! 0%nat = Some IN_PROGRESS
    ∧ Transport.pendingServerOps t' = [0%nat]
    ∧ destroy <$> ops (Transport.world t') !! 0%nat = Some false.
Proof. eexists. repeat split; vm_compute; reflexivity. Qed.

(** [TransportTest.Op_processUpdates_ServerOp_IN_PROGRESS_done_noSendDone]. *)
Example TransportTest_Op_processUpdates_ServerOp_done_noSendDone :
  let t :=
    Tests.serverOpTransport (mkMessageId 42 32 1)
      (Tests.opIn true IN_PROGRESS false false) in
  ∃ t', Transport.processUpdates (C := Tests.testConstants) Tests.mockDriver
          0%nat t = Ret t'
    ∧ state <$> ops (Transport.world t') !! 0%nat = Some COMPLETED
    ∧ Transport.updateHints t' = [0%nat]
    ∧ destroy <$> ops (Transport.world t') !! 0%nat = Some false
    ∧ driverCalls (Transport.world t') = [].
Proof. eexists. repeat split; vm_compute; reflexivity. Qed.

(** [TransportTest.Op_processUpdates_ServerOp_IN_PROGRESS_done_sendDone]. *)
Example TransportTest_Op_processUpdates_ServerOp_done_sendDone :
  let t :=
    Tests.serverOpTransport (mkMessageId 42 32 2)
      (Tests.opIn true IN_PROGRESS false false) in
  ∃ t', Transport.processUpdates (C := Tests.testConstants) Tests.mockDriver
          0%nat t = Ret t'
    ∧ state <$> ops (Transport.world t') !! 0%nat = Some COMPLETED
    ∧ Transport.updateHints t' = [0%nat]
    ∧ destroy <$> ops (Transport.world t') !! 0%nat = Some false
    ∧ driverCalls (Transport.world t')
      = [allocPacket 0; sendPackets 0 DONE (mkMessageId 42 32 2);
         releasePackets 0].
Proof. eexists. repeat split; vm_compute; reflexivity. Qed.

(** [TransportTest.Op_processUpdates_RemoteOp_IN_PROGRESS], once the
    inbound message is fully received. *)
Example TransportTest_Op_processUpdates_RemoteOp_IN_PROGRESS :
  let t :=
    Transport.set_world
      (set_messagePool
         <[0%nat := InboundMessage.mk (mkMessageId 42 32 0) None None true]>)
      (Tests.serverOpTransport (mkMessageId 42 32 0)
         (Tests.opIn false IN_PROGRESS true false)) in
  ∃ t', Transport.processUpdates (C := Tests.testConstants) Tests.mockDriver
          0%nat t = Ret t'
    ∧ state <$> ops (Transport.world t') !! 0%nat = Some COMPLETED
    ∧ Transport.updateHints t' = [0%nat]
    ∧ destroy <$> ops (Transport.world t') !! 0%nat = Some false.
Proof. eexists. repeat split; vm_compute; reflexivity. Qed.

(** [TransportTest.Op_processUpdates_RemoteOp_not_retained]. *)
Example TransportTest_Op_processUpdates_RemoteOp_not_retained :
  let t := Tests.serverOpTransport (mkMessageId 42 32 0) (Tests.newOp false) in
  ∃ t', Transport.processUpdates (C := Tests.testConstants) Tests.mockDriver
          0%nat t = Ret t'
    ∧ destroy <$> ops (Transport.world t') !! 0%nat = Some true
    ∧ Transport.unusedOps t' = [0%nat].
Proof. eexists. repeat split; vm_compute; reflexivity. Qed.

(** [TransportTest.sendRequest_RemoteOp]: the op is registered under the
    ULTIMATE_RESPONSE_TAG and its request sent under the
    INITIAL_REQUEST_TAG, without acknowledgment. *)
Example TransportTest_sendRequest_RemoteOp :
  let t := Tests.serverOpTransport (mkMessageId 42 32 0) (Tests.newOp false) in
  ∃ t', Transport.sendRequest (C := Tests.testConstants) 0%nat
          Tests.destination t = Ret t'
    ∧ registeredOps (Transport.world t') !! mkMessageId 22 1 0 = Some 0%nat
    ∧ Transport.senderCalls t'
      = [Sender.sendMessage (mkMessageId 22 1 1) Tests.destination 0%nat false]
    ∧ state <$> ops (Transport.world t') !! 0%nat = Some IN_PROGRESS.
Proof. eexists. repeat split; vm_compute; reflexivity. Qed.

(** ** Further properties of the Receiver *)

(** A returning call of [handleDataPacket] leaves [registeredOps] and the
    operation contexts as they were, and changes no message but the one of
    its packet's id: the message of any other id (carrying that id) is as
    it was. *)
Theorem handleDataPacket_frame {C : Constants} packet driver w w' ret :
  handleDataPacket packet driver w = Ret (w', ret) →
  registeredOps w' = registeredOps w
  ∧ ops w' = ops w
  ∧ ∀ id' msg',
      id' ≠ messageId (payload packet) →
      messageOf id' w = Some msg' →
      InboundMessage.id msg' = id' →
      messageOf id' w' = Some msg'.
Proof.
  intros Hh.
  destruct (handleDataPacket_Ret _ _ _ _ _ Hh)
    as (w1 & op & m & msg & Hf & Hm & Hid & Hcase).
  assert (registeredOps w1 = registeredOps w ∧ ops w1 = ops w) as [Hreg Hops].
  { destruct (findOrCreate_Ret _ _ _ _ _ Hf) as [_ [[_ ->]|(_&_&_&->)]]; done. }
  assert (∃ msg1, registeredOps w' = registeredOps w1 ∧ ops w' = ops w1
                  ∧ messagePool w' = <[m := msg1]> (messagePool w1))
    as (msg1 & Hreg' & Hops' & Hpool').
  { simpl in Hcase. destruct (InboundMessage.fullMessageReceived msg).
    { destruct Hcase as [_ ->]. by eexists. }
    destruct Hcase as (s & _ & _ & _ & Hcase).
    case_decide; destruct Hcase as [_ ->]; by eexists. }
  split; [congruence|]. split; [congruence|].
  intros id' msg' Hne Hmo Hid'. unfold messageOf in Hmo.
  destruct (findMessage id' w) as [m'|] eqn:Hfm'; [|done]. simpl in Hmo.
  rewrite (messageOf_eq _ _ m')
    by (by eapply handleDataPacket_findMessage).
  rewrite Hpool'.
  assert (m ≠ m' ∧ messagePool w1 !! m' = Some msg') as [Hmne Hm1].
  { destruct (findOrCreate_Ret _ _ _ _ _ Hf) as [_ [[_ ->]|(_&_&Hnone&->)]].
    - split; [|done]. intros ->. congruence.
    - assert (m ≠ m') by congruence. split; [done|]. simpl.
      by rewrite lookup_insert_ne. }
  by rewrite lookup_insert_ne.
Qed.

(** [ReceiverTest.handleDataPacket_basic], packet 1: the registration of
    the op is as it was. *)
Lemma handleDataPacket_frame_witness :
  registeredOps Tests.basic_after_1 = registeredOps Tests.basic
  ∧ ops Tests.basic_after_1 = ops Tests.basic
  ∧ ∀ id' msg',
      id' ≠ messageId (payload (Tests.mockPacket Tests.id_42_32_22 1)) →
      messageOf id' Tests.basic = Some msg' →
      InboundMessage.id msg' = id' →
      messageOf id' Tests.basic_after_1 = Some msg'.
Proof.
  apply (handleDataPacket_frame (C := Tests.testConstants)
           (Tests.mockPacket Tests.id_42_32_22 1) Tests.mockDriver
           Tests.basic Tests.basic_after_1 None).
  vm_compute. reflexivity.
Defined.

(** Registering a live op for an id the Receiver does not know and then
    dropping the op leaves no pool object behind: the pool and
    [registeredOps] are as before, and the op's [inMessage] is null. *)
Theorem registerOp_dropOp id op w o :
  ops w !! op = Some o →
  registeredOps w !! id = None →
  unregisteredMessages w !! id = None →
  ∃ w1 w2,
    registerOp id op w = Ret w1
    ∧ outstandingObjects w1 = S (outstandingObjects w)
    ∧ registeredOps w1 !! id = Some op
    ∧ dropOp op w1 = Ret w2
    ∧ messagePool w2 = messagePool w
    ∧ registeredOps w2 = registeredOps w
    ∧ ops w2 !! op ≫= inMessage = None.
Proof.
  intros Ho Hreg Hun. unfold registerOp. rewrite Hun. simpl. rewrite Ho. simpl.
  assert (messagePool w !! Receiver.construct (messagePool w) = None) as Hfresh.
  { apply not_elem_of_dom. unfold Receiver.construct. apply is_fresh. }
  eexists _, _. split; [done|]. split.
  { unfold outstandingObjects. simpl. by rewrite map_size_insert_None. }
  simpl. rewrite Hreg. split; [apply lookup_insert_eq|].
  unfold dropOp. simpl. rewrite lookup_insert_eq. simpl.
  rewrite lookup_insert_eq. simpl. split; [done|]. simpl.
  split; [by apply delete_insert_id|].
  split; [rewrite Hreg; by apply delete_insert_id|].
  by rewrite lookup_insert_eq.
Qed.

(** [ReceiverTest.registerOp_newMessage] followed by [ReceiverTest.dropOp]. *)
Lemma registerOp_dropOp_witness :
  let id := mkMessageId 42 32 0 in
  let w := Receiver_new {[ 0%nat := Tests.newOp false ]} in
  ∃ w1 w2,
    registerOp id 0%nat w = Ret w1
    ∧ outstandingObjects w1 = S (outstandingObjects w)
    ∧ registeredOps w1 !! id = Some 0%nat
    ∧ dropOp 0%nat w1 = Ret w2
    ∧ messagePool w2 = messagePool w
    ∧ registeredOps w2 = registeredOps w
    ∧ ops w2 !! 0%nat ≫= inMessage = None.
Proof.
  apply (registerOp_dropOp (mkMessageId 42 32 0)
           0%nat (Receiver_new {[ 0%nat := Tests.newOp false ]})
           (Tests.newOp false)).
  - vm_compute. reflexivity.
  - vm_compute. reflexivity.
  - vm_compute. reflexivity.
Defined.

(** ** The state the Receiver keeps *)

Section wf_facts.
Context {C : Constants}.

Implicit Types (w : World) (id : MessageId) (packet : Packet)
  (driver : Driver.Driver).

Lemma wf_registered w id op :
  wf w → registeredOps w !! id = Some op →
  ∃ o m msg, ops w !! op = Some o ∧ inMessage o = Some m
    ∧ messagePool w !! m = Some msg ∧ InboundMessage.id msg = id.
Proof.
  intros (Hreg & _ & _) Hop. specialize (Hreg id op Hop).
  unfold registered_ok in Hreg.
  destruct (ops w !! op) as [o|]; [|done]. simpl in Hreg.
  destruct (inMessage o) as [m|] eqn:Hin; [|done]. simpl in Hreg.
  destruct (messagePool w !! m) as [msg|] eqn:Hm; [|done].
  exists o, m, msg. simpl in Hreg. injection Hreg as Hreg. done.
Qed.

Lemma wf_unregistered w id m :
  wf w → unregisteredMessages w !! id = Some m →
  registeredOps w !! id = None
  ∧ ∃ msg, messagePool w !! m = Some msg ∧ InboundMessage.id msg = id.
Proof.
  intros (_ & Hun & _) Hm. destruct (Hun id m Hm) as [Hid Hnone].
  split; [done|].
  destruct (messagePool w !! m) as [msg|]; [|done].
  exists msg. simpl in Hid. injection Hid as Hid. done.
Qed.

(** In a well-formed Receiver a known id has a live message that carries
    it. *)
Lemma wf_known w id :
  wf w → known id w = true →
  ∃ m msg, findMessage id w = Some m ∧ messagePool w !! m = Some msg
    ∧ InboundMessage.id msg = id.
Proof.
  intros Hwf Hk. apply bool_decide_eq_true in Hk. unfold findMessage.
  destruct (registeredOps w !! id) as [op|] eqn:Hreg.
  - destruct (wf_registered _ _ _ Hwf Hreg) as (o & m & msg & Ho & Hin & Hm & Hid).
    exists m, msg. rewrite Ho. simpl. done.
  - destruct Hk as [[? ?]|[m Hm]]; [done|].
    destruct (wf_unregistered _ _ _ Hwf Hm) as (_ & msg & ? & ?). eauto.
Qed.

Lemma wf_findMessage w id m :
  wf w → findMessage id w = Some m →
  ∃ msg, messagePool w !! m = Some msg ∧ InboundMessage.id msg = id.
Proof.
  intros Hwf Hfm.
  destruct (wf_known w id Hwf (known_findMessage _ _ _ Hfm))
    as (m' & msg & Hfm' & Hm & Hid).
  exists msg. split; [congruence|done].
Qed.

(** In a well-formed Receiver the look-up of [handleDataPacket] returns a
    live message that carries the id and, if constructed, has its source. *)
Lemma wf_findOrCreate w id :
  wf w →
  ∃ w1 op m msg,
    findOrCreate id w = Ret (w1, op, m)
    ∧ messagePool w1 !! m = Some msg
    ∧ InboundMessage.id msg = id
    ∧ sourced msg.
Proof.
  intros Hwf. destruct (known id w) eqn:Hk.
  - destruct (wf_known _ _ Hwf Hk) as (m & msg & Hfm & Hm & Hid).
    exists w, (registeredOps w !! id), m, msg.
    split; [by apply findOrCreate_found|]. split; [done|]. split; [done|].
    destruct Hwf as (_ & _ & Hsrc). by eapply Hsrc.
  - apply known_false in Hk as [Hreg Hun].
    unfold findOrCreate. rewrite Hreg, Hun.
    eexists _, _, _, _. split; [done|]. simpl.
    rewrite lookup_insert_eq. split; [done|]. split; [done|].
    intros [? ?]. discriminate.
Qed.

(** Past the look-up: the call returns, or stops at one of the two sanity
    checks. *)
Lemma wf_handleDataPacket_outcome packet driver w :
  wf w →
  (∃ w' ret, handleDataPacket packet driver w = Ret (w', ret))
  ∨ handleDataPacket packet driver w = AssertionFailed SourceMatches
  ∨ handleDataPacket packet driver w = AssertionFailed LengthMatches.
Proof.
  intros Hwf. unfold handleDataPacket.
  destruct (wf_findOrCreate w (messageId (payload packet)) Hwf)
    as (w1 & op & m & msg & -> & Hm & Hid & Hsrc).
  simpl. rewrite Hm. simpl. rewrite bool_decide_eq_true_2 by done. simpl.
  destruct (InboundMessage.message msg) as [buf|] eqn:Hbuf.
  - destruct (Hsrc (ltac:(eauto))) as [s Hs]. rewrite Hs.
    destruct (InboundMessage.fullMessageReceived msg); [eauto|]. simpl.
    destruct (decide (toString s = toString (address packet))) as [He|He].
    2:{ rewrite (bool_decide_eq_false_2 _ He). simpl. auto. }
    rewrite (bool_decide_eq_true_2 _ He). simpl.
    destruct (decide (rawLength buf = totalLength (payload packet))) as [Hl|Hl].
    2:{ rewrite (bool_decide_eq_false_2 _ Hl). simpl. auto. }
    rewrite (bool_decide_eq_true_2 _ Hl). simpl. left.
    unfold setPacket. destruct (decide _); simpl; [eauto|].
    match goal with |- context [bool_decide ?P] => destruct (bool_decide P) end;
      eauto.
  - destruct (InboundMessage.fullMessageReceived msg); [eauto|]. simpl.
    match goal with |- context [bool_decide (toString ?a = ?b)] =>
      destruct (decide (toString a = b)) as [He|He] end.
    2:{ rewrite (bool_decide_eq_false_2 _ He). simpl. auto. }
    rewrite (bool_decide_eq_true_2 _ He). simpl.
    rewrite bool_decide_eq_true_2 by done. simpl. left.
    unfold setPacket. destruct (decide _); simpl; [eauto|].
    match goal with |- context [bool_decide ?P] => destruct (bool_decide P) end;
      eauto.
Qed.

(** Replacing a live pool object by one with the same id (and its source,
    if constructed) keeps the Receiver well-formed. *)
Lemma wf_store w w' m msg msg' :
  wf w →
  messagePool w !! m = Some msg →
  InboundMessage.id msg' = InboundMessage.id msg →
  sourced msg' →
  registeredOps w' = registeredOps w →
  unregisteredMessages w' = unregisteredMessages w →
  ops w' = ops w →
  messagePool w' = <[m := msg']> (messagePool w) →
  wf w'.
Proof.
  intros Hwf Hm Hid Hsrc Hreg Hun Hops Hpool.
  unfold wf, registered_ok, unregistered_ok.
  rewrite Hreg, Hun, Hops, Hpool. split; [|split].
  - intros id op Hop.
    destruct (wf_registered _ _ _ Hwf Hop) as (o & m0 & msg0 & -> & Hin & Hm0 & Hid0).
    simpl. rewrite Hin. simpl.
    destruct (decide (m0 = m)) as [->|Hne].
    + rewrite lookup_insert_eq. simpl. congruence.
    + rewrite lookup_insert_ne by done. rewrite Hm0. simpl. congruence.
  - intros id m0 Hm0'.
    destruct (wf_unregistered _ _ _ Hwf Hm0') as (Hnone & msg0 & Hm0 & Hid0).
    split; [|done].
    destruct (decide (m0 = m)) as [->|Hne].
    + rewrite lookup_insert_eq. simpl. congruence.
    + rewrite lookup_insert_ne by done. rewrite Hm0. simpl. congruence.
  - intros m0 msg0. destruct (decide (m0 = m)) as [->|Hne].
    + rewrite lookup_insert_eq. by intros [= <-].
    + rewrite lookup_insert_ne by done. destruct Hwf as (_ & _ & Hs).
      apply Hs.
Qed.

Lemma wf_findOrCreate_kept w id w1 op m :
  wf w → findOrCreate id w = Ret (w1, op, m) → wf w1.
Proof.
  intros Hwf Hf.
  destruct (findOrCreate_Ret _ _ _ _ _ Hf) as [_ [[_ ->]|(Hk&_&Hnone&->)]];
    [done|].
  apply known_false in Hk as [Hreg Hun].
  unfold wf, registered_ok, unregistered_ok. simpl. split; [|split].
  - intros id' op' Hop.
    destruct (wf_registered _ _ _ Hwf Hop) as (o & m0 & msg0 & -> & Hin & Hm0 & Hid0).
    simpl. rewrite Hin. simpl.
    rewrite lookup_insert_ne by congruence. rewrite Hm0. simpl. congruence.
  - intros id' m'. destruct (decide (id' = id)) as [->|Hne].
    + rewrite lookup_insert_eq. intros [= <-]. by rewrite lookup_insert_eq.
    + rewrite lookup_insert_ne by done. intros Hm'.
      destruct (wf_unregistered _ _ _ Hwf Hm') as (Hnone' & msg0 & Hm0 & Hid0).
      split; [|done].
      rewrite lookup_insert_ne by congruence. rewrite Hm0. simpl. congruence.
  - intros m0 msg0. destruct (decide (m0 = m)) as [->|Hne].
    + rewrite lookup_insert_eq. intros [= <-] [? ?]. discriminate.
    + rewrite lookup_insert_ne by done. destruct Hwf as (_ & _ & Hs).
      apply Hs.
Qed.

Lemma wf_handleDataPacket_kept packet driver w w' ret :
  wf w → handleDataPacket packet driver w = Ret (w', ret) → wf w'.
Proof.
  intros Hwf Hh.
  destruct (handleDataPacket_Ret _ _ _ _ _ Hh)
    as (w1 & op & m & msg & Hf & Hm & Hid & Hcase).
  pose proof (wf_findOrCreate_kept _ _ _ _ _ Hwf Hf) as Hwf1.
  assert (is_Some (sourceFor packet driver msg)
          ∨ InboundMessage.fullMessageReceived msg = true) as Hsrc.
  { simpl in Hcase. destruct (InboundMessage.fullMessageReceived msg); [auto|].
    destruct Hcase as (s & -> & _). eauto. }
  assert (is_Some (sourceFor packet driver msg)) as Hsome.
  { destruct Hsrc as [?|_]; [done|]. unfold sourceFor.
    destruct (InboundMessage.message msg) as [buf|] eqn:Hbuf; [|eauto].
    destruct Hwf1 as (_ & _ & Hs). apply (Hs m msg Hm). eauto. }
  simpl in Hcase.
  destruct (InboundMessage.fullMessageReceived msg).
  { destruct Hcase as [_ ->].
    eapply (wf_store w1 _ m msg); cycle -1;
      [reflexivity|done|exact Hm|simpl; congruence|by intros _|done..]. }
  destruct Hcase as (s & _ & _ & _ & Hcase).
  case_decide; destruct Hcase as [_ ->];
    (eapply (wf_store w1 _ m msg); cycle -1;
       [reflexivity|done|exact Hm|simpl; congruence|by intros _|done..]).
Qed.

End wf_facts.

(** X3: in a well-formed Receiver, [handleDataPacket] finds everything it
    dereferences and passes its first two assertions: it returns, or stops
    at one of the two sanity checks on the packet; and the Receiver it
    leaves is well-formed again. *)
Theorem handleDataPacket_wf {C : Constants} packet driver w :
  wf w →
  ((∃ w' ret, handleDataPacket packet driver w = Ret (w', ret))
   ∨ handleDataPacket packet driver w = AssertionFailed SourceMatches
   ∨ handleDataPacket packet driver w = AssertionFailed LengthMatches)
  ∧ ∀ w' ret, handleDataPacket packet driver w = Ret (w', ret) → wf w'.
Proof.
  intros Hwf. split; [by apply wf_handleDataPacket_outcome|].
  intros w' ret. by apply wf_handleDataPacket_kept.
Qed.

(** The set-up of [ReceiverTest.handleDataPacket_basic] is well-formed, and
    so is the Receiver after packet 1. *)
Lemma handleDataPacket_wf_witness :
  let packet := Tests.mockPacket Tests.id_42_32_22 1 in
  handleDataPacket (C := Tests.testConstants) packet Tests.mockDriver Tests.basic
  = Ret (Tests.basic_after_1, None)
  ∧ wf Tests.basic_after_1.
Proof.
  assert (wf Tests.basic) as Hwf
    by (apply (bool_decide_unpack _); vm_compute; exact I).
  destruct (handleDataPacket_wf (C := Tests.testConstants)
              (Tests.mockPacket Tests.id_42_32_22 1) Tests.mockDriver
              Tests.basic Hwf) as [_ Hkept].
  assert (handleDataPacket (C := Tests.testConstants)
            (Tests.mockPacket Tests.id_42_32_22 1) Tests.mockDriver Tests.basic
          = Ret (Tests.basic_after_1, None)) as Hstep
    by (vm_compute; reflexivity).
  split; [exact Hstep|]. exact (Hkept _ _ Hstep).
Defined.

(** X4: a sequence of DATA packets, each carrying the total length and an
    address printing as the source of its message (and resolved by the
    driver to an address printing the same), handed to a well-formed
    Receiver whose buffers agree with them: every call returns, one result
    per packet, and the Receiver stays well-formed and in agreement. *)
Theorem handleDataPackets_return {C : Constants} L S packets driver w :
  wf w →
  consistentWith L S w →
  (∀ packet, packet ∈ packets →
     let id := messageId (payload packet) in
     totalLength (payload packet) = L id
     ∧ toString (address packet) = S id
     ∧ toString (getAddress driver (toString (address packet))) = S id) →
  ∃ w' rets,
    handleDataPackets packets driver w = Ret (w', rets)
    ∧ length rets = length packets
    ∧ wf w'
    ∧ consistentWith L S w'.
Proof.
  revert w. induction packets as [|packet rest IH]; intros w Hwf Hc Hp.
  - by exists w, [].
  - destruct (Hp packet) as (HL & HS & Hres); [apply elem_of_cons; by left|].
    destruct (handleDataPacket_consistent L S packet driver w HL HS Hres Hc)
      as [Hfail Hret].
    destruct (wf_handleDataPacket_outcome packet driver w Hwf)
      as [(w1 & ret & Hstep)|[Hstop|Hstop]].
    2,3: destruct (Hfail _ Hstop); done.
    destruct (IH w1) as (w' & rets & Hrest & Hlen & Hwf' & Hc').
    + by eapply wf_handleDataPacket_kept.
    + by eapply Hret.
    + intros p Hin. apply Hp. apply elem_of_cons. by right.
    + exists w', (ret :: rets). simpl. rewrite Hstep. simpl. rewrite Hrest.
      simpl. rewrite Hlen. done.
Qed.

(** Packets 1 and 0 of [ReceiverTest.handleDataPacket_basic]. *)
Lemma handleDataPackets_return_witness :
  ∃ w' rets,
    handleDataPackets (C := Tests.testConstants)
      [Tests.mockPacket Tests.id_42_32_22 1;
       Tests.mockPacket Tests.id_42_32_22 0]
      Tests.mockDriver Tests.basic = Ret (w', rets)
    ∧ length rets = 2%nat
    ∧ wf w'
    ∧ consistentWith (λ _, 1420) (λ _, "remote-location") w'.
Proof.
  apply (handleDataPackets_return (C := Tests.testConstants)
           (λ _, 1420) (λ _, "remote-location")
           [Tests.mockPacket Tests.id_42_32_22 1;
            Tests.mockPacket Tests.id_42_32_22 0]
           Tests.mockDriver Tests.basic).
  - apply (bool_decide_unpack _). vm_compute. exact I.
  - intros m msg buf Hm. unfold Tests.basic in Hm. simpl in Hm.
    apply lookup_singleton_Some in Hm as [<- <-]. discriminate.
  - intros packet [->|[->|[]%elem_of_nil]%elem_of_cons]%elem_of_cons;
      vm_compute; done.
Defined.

(** X5: [registerOp] on a well-formed Receiver, for a live op that is not
    registered yet, returns a well-formed Receiver.  An id that was not
    registered is now registered to the op; if the id had an unregistered
    message, the op has adopted it with all it had received and the id has
    left the unregistered map.  The FIFO is as it was. *)
Theorem registerOp_wf id op w :
  wf w →
  is_Some (ops w !! op) →
  ¬ registered op w →
  ∃ w', registerOp id op w = Ret w'
    ∧ wf w'
    ∧ (registeredOps w !! id = None → registeredOps w' !! id = Some op)
    ∧ (is_Some (unregisteredMessages w !! id) →
       registeredOps w' !! id = Some op
       ∧ unregisteredMessages w' !! id = None
       ∧ messageOf id w' = messageOf id w
       ∧ messagePool w' = messagePool w)
    ∧ receivedMessages w' = receivedMessages w.
Proof.
  intros Hwf [o Ho] Hfree.
  assert (∀ id', registeredOps w !! id' ≠ Some op) as Hfree'.
  { intros id' Hop. apply Hfree. by exists id'. }
  unfold registerOp.
  destruct (unregisteredMessages w !! id) as [m|] eqn:Hun.
  - (* an unregistered message is adopted *)
    destruct (wf_unregistered _ _ _ Hwf Hun) as (Hnone & msg & Hm & Hid).
    simpl. rewrite Ho. simpl. eexists. split; [done|]. simpl.
    split; [|split; [|split; [|done]]].
    + unfold wf, registered_ok, unregistered_ok. simpl. rewrite Hnone.
      split; [|split].
      * intros id' op'. destruct (decide (id' = id)) as [->|Hne].
        -- rewrite lookup_insert_eq. intros [= <-].
           rewrite lookup_insert_eq. simpl. rewrite Hm. simpl. congruence.
        -- rewrite lookup_insert_ne by done. intros Hop.
           destruct (wf_registered _ _ _ Hwf Hop)
             as (o' & m0 & msg0 & Ho' & Hin & Hm0 & Hid0).
           rewrite lookup_insert_ne by (intros <-; by apply (Hfree' id')).
           rewrite Ho'. simpl. rewrite Hin. simpl. rewrite Hm0. simpl.
           congruence.
      * intros id' m'. destruct (decide (id' = id)) as [->|Hne].
        -- by rewrite lookup_delete_eq.
        -- rewrite lookup_delete_ne by done. intros Hm'.
           destruct (wf_unregistered _ _ _ Hwf Hm') as (Hnone' & msg0 & Hm0 & Hid0).
           rewrite Hm0. simpl. rewrite lookup_insert_ne by done.
           split; congruence.
      * by destruct Hwf as (_ & _ & Hs).
    + intros _. rewrite Hnone. apply lookup_insert_eq.
    + intros _. rewrite Hnone. split; [apply lookup_insert_eq|].
      split; [apply lookup_delete_eq|]. split; [|done].
      unfold messageOf, findMessage. simpl.
      rewrite Hnone, lookup_insert_eq, Hun. simpl.
      by rewrite lookup_insert_eq.
  - (* a message is constructed for the op *)
    simpl. rewrite Ho. simpl.
    assert (messagePool w !! Receiver.construct (messagePool w) = None) as Hfresh.
    { apply not_elem_of_dom. unfold Receiver.construct. apply is_fresh. }
    set (m := Receiver.construct (messagePool w)) in *.
    eexists. split; [done|]. simpl.
    split; [|split; [|split; [|done]]].
    + unfold wf, registered_ok, unregistered_ok. simpl. split; [|split].
      * intros id' op' Hop'.
        assert (op' = op ∧ id' = id ∧ registeredOps w !! id = None
                ∨ registeredOps w !! id' = Some op') as [(-> & -> & Hnone)|Hop].
        { destruct (registeredOps w !! id) eqn:Hreg; [by right|].
          destruct (decide (id' = id)) as [->|Hne].
          - rewrite lookup_insert_eq in Hop'. injection Hop' as <-. by left.
          - rewrite lookup_insert_ne in Hop' by done. by right. }
        -- rewrite lookup_insert_eq. simpl. by rewrite lookup_insert_eq.
        -- destruct (wf_registered _ _ _ Hwf Hop)
             as (o' & m0 & msg0 & Ho' & Hin & Hm0 & Hid0).
           rewrite lookup_insert_ne by (intros <-; by apply (Hfree' id')).
           rewrite Ho'. simpl. rewrite Hin. simpl.
           rewrite lookup_insert_ne by congruence. rewrite Hm0. simpl.
           congruence.
      * intros id' m' Hm'.
        destruct (wf_unregistered _ _ _ Hwf Hm') as (Hnone' & msg0 & Hm0 & Hid0).
        rewrite lookup_insert_ne by congruence. rewrite Hm0. simpl.
        split; [congruence|].
        destruct (registeredOps w !! id) eqn:Hreg; [done|].
        rewrite lookup_insert_ne by congruence. done.
      * intros m0 msg0. destruct (decide (m0 = m)) as [->|Hne].
        -- rewrite lookup_insert_eq. intros [= <-] [? ?]. discriminate.
        -- rewrite lookup_insert_ne by done. destruct Hwf as (_ & _ & Hs).
           apply Hs.
    + intros ->. apply lookup_insert_eq.
    + intros [? ?]. discriminate.
Qed.

(** Scenario 3 of the spec after [receiveMessage]: the unregistered
    message 0 is adopted by op 0. *)
Lemma registerOp_wf_witness :
  let id := Tests.id_42_32_22 in
  let w := (receiveMessage Tests.unregistered).1 in
  ∃ w', registerOp id 0%nat w = Ret w'
    ∧ wf w'
    ∧ (registeredOps w !! id = None → registeredOps w' !! id = Some 0%nat)
    ∧ (is_Some (unregisteredMessages w !! id) →
       registeredOps w' !! id = Some 0%nat
       ∧ unregisteredMessages w' !! id = None
       ∧ messageOf id w' = messageOf id w
       ∧ messagePool w' = messagePool w)
    ∧ receivedMessages w' = receivedMessages w.
Proof.
  apply (registerOp_wf Tests.id_42_32_22 0%nat
           (receiveMessage Tests.unregistered).1).
  - apply (bool_decide_unpack _). vm_compute. exact I.
  - exists (Tests.newOp false). vm_compute. reflexivity.
  - intros [id Hid]. vm_compute in Hid. discriminate.
Defined.

(** X6: [dropOp] on a well-formed Receiver, for the op registered under an
    id, returns a well-formed Receiver in which the id is not known any
    more, the op's message has left the pool and the op's [inMessage] is
    null; the unregistered map and the FIFO are as they were. *)
Theorem dropOp_wf id op w :
  wf w →
  registeredOps w !! id = Some op →
  ∃ w' message,
    dropOp op w = Ret w'
    ∧ wf w'
    ∧ findMessage id w = Some message
    ∧ known id w' = false
    ∧ messagePool w' = delete message (messagePool w)
    ∧ ops w' !! op ≫= inMessage = None
    ∧ unregisteredMessages w' = unregisteredMessages w
    ∧ receivedMessages w' = receivedMessages w.
Proof.
  intros Hwf Hop.
  destruct (wf_registered _ _ _ Hwf Hop) as (o & m & msg & Ho & Hin & Hm & Hid).
  assert (unregisteredMessages w !! id = None) as Hun.
  { destruct (unregisteredMessages w !! id) as [m'|] eqn:Hun; [|done].
    destruct (wf_unregistered _ _ _ Hwf Hun) as [? _]. congruence. }
  unfold dropOp. rewrite Ho. simpl. rewrite Hin, Hm. simpl. rewrite Hid.
  eexists _, m. split; [done|].
  split; [|split; [|split; [|split; [done|split; [|done]]]]].
  - unfold wf, registered_ok, unregistered_ok. simpl. split; [|split].
    + intros id' op'. destruct (decide (id' = id)) as [->|Hne].
      { by rewrite lookup_delete_eq. }
      rewrite lookup_delete_ne by done. intros Hop'.
      destruct (wf_registered _ _ _ Hwf Hop')
        as (o' & m0 & msg0 & Ho' & Hin' & Hm0 & Hid0).
      assert (op' ≠ op) by (intros ->; congruence).
      rewrite lookup_insert_ne by done. rewrite Ho'. simpl. rewrite Hin'.
      simpl. rewrite lookup_delete_ne by congruence. rewrite Hm0. simpl.
      congruence.
    + intros id' m' Hm'.
      destruct (wf_unregistered _ _ _ Hwf Hm') as (Hnone' & msg0 & Hm0 & Hid0).
      assert (id' ≠ id) by congruence.
      rewrite lookup_delete_ne by congruence. rewrite Hm0. simpl.
      rewrite lookup_delete_ne by done. split; congruence.
    + intros m0 msg0 [_ Hm0]%lookup_delete_Some.
      destruct Hwf as (_ & _ & Hs). by eapply Hs.
  - unfold findMessage. rewrite Hop, Ho. simpl. done.
  - apply known_false. simpl. by rewrite lookup_delete_eq.
  - simpl. by rewrite lookup_insert_eq.
Qed.

(** [ReceiverTest.dropOp]. *)
Lemma dropOp_wf_witness :
  let id := Tests.id_42_32_22 in
  let w := Tests.basic_after_1 in
  ∃ w' message,
    dropOp 0%nat w = Ret w'
    ∧ wf w'
    ∧ findMessage id w = Some message
    ∧ known id w' = false
    ∧ messagePool w' = delete message (messagePool w)
    ∧ ops w' !! 0%nat ≫= inMessage = None
    ∧ unregisteredMessages w' = unregisteredMessages w
    ∧ receivedMessages w' = receivedMessages w.
Proof.
  apply (dropOp_wf Tests.id_42_32_22 0%nat Tests.basic_after_1).
  - apply (bool_decide_unpack _). vm_compute. exact I.
  - vm_compute. reflexivity.
Defined.

(** X7: [dropMessage] on a well-formed Receiver, for the unregistered
    message of an id, returns a well-formed Receiver in which the id is not
    known any more and the message has left the pool; [registeredOps], the
    operation contexts and the FIFO are as they were (so the FIFO keeps
    the message if it had not been popped). *)
Theorem dropMessage_wf id message w :
  wf w →
  unregisteredMessages w !! id = Some message →
  ∃ w', dropMessage message w = Ret w'
    ∧ wf w'
    ∧ known id w' = false
    ∧ messagePool w' = delete message (messagePool w)
    ∧ unregisteredMessages w' = delete id (unregisteredMessages w)
    ∧ registeredOps w' = registeredOps w
    ∧ ops w' = ops w
    ∧ receivedMessages w' = receivedMessages w.
Proof.
  intros Hwf Hun.
  destruct (wf_unregistered _ _ _ Hwf Hun) as (Hnone & msg & Hm & Hid).
  unfold dropMessage. rewrite Hm. simpl. rewrite Hid.
  eexists. split; [done|]. split; [|split; [|done]].
  - unfold wf, registered_ok, unregistered_ok. simpl. split; [|split].
    + intros id' op' Hop'.
      destruct (wf_registered _ _ _ Hwf Hop')
        as (o' & m0 & msg0 & Ho' & Hin' & Hm0 & Hid0).
      rewrite Ho'. simpl. rewrite Hin'. simpl.
      rewrite lookup_delete_ne by congruence. rewrite Hm0. simpl. congruence.
    + intros id' m'. destruct (decide (id' = id)) as [->|Hne].
      { by rewrite lookup_delete_eq. }
      rewrite lookup_delete_ne by done. intros Hm'.
      destruct (wf_unregistered _ _ _ Hwf Hm') as (Hnone' & msg0 & Hm0 & Hid0).
      rewrite lookup_delete_ne by congruence. rewrite Hm0. simpl.
      split; congruence.
    + intros m0 msg0 [_ Hm0]%lookup_delete_Some.
      destruct Hwf as (_ & _ & Hs). by eapply Hs.
  - apply known_false. simpl. by rewrite lookup_delete_eq.
Qed.

(** [ReceiverTest.dropMessage], on the message of scenario 3. *)
Lemma dropMessage_wf_witness :
  let id := Tests.id_42_32_22 in
  let w := Tests.unregistered in
  ∃ w', dropMessage 0%nat w = Ret w'
    ∧ wf w'
    ∧ known id w' = false
    ∧ messagePool w' = delete 0%nat (messagePool w)
    ∧ unregisteredMessages w' = delete id (unregisteredMessages w)
    ∧ registeredOps w' = registeredOps w
    ∧ ops w' = ops w
    ∧ receivedMessages w' = receivedMessages w.
Proof.
  apply (dropMessage_wf Tests.id_42_32_22 0%nat Tests.unregistered).
  - apply (bool_decide_unpack _). vm_compute. exact I.
  - vm_compute. reflexivity.
Defined.

(** ** The completion flag *)

Section flag_facts.
Context {C : Constants}.

Lemma flagExact_findOrCreate w id w1 op m :
  flagExact w → findOrCreate id w = Ret (w1, op, m) → flagExact w1.
Proof.
  intros Hfl Hf.
  destruct (findOrCreate_Ret _ _ _ _ _ Hf) as [_ [[_ ->]|(_&_&_&->)]]; [done|].
  intros m0 msg0. simpl. destruct (decide (m0 = m)) as [->|Hne].
  - rewrite lookup_insert_eq. by intros [= <-].
  - rewrite lookup_insert_ne by done. apply Hfl.
Qed.

Lemma flagExact_store w w' m msg' :
  flagExact w →
  InboundMessage.fullMessageReceived msg'
  = match InboundMessage.message msg' with
    | Some buf =>
        bool_decide
          (rawLength buf ≤ wrap32 (PACKET_DATA_LENGTH buf * getNumPackets buf))
    | None => false
    end →
  messagePool w' = <[m := msg']> (messagePool w) →
  flagExact w'.
Proof.
  intros Hfl Hmsg Hpool m0 msg0. rewrite Hpool.
  destruct (decide (m0 = m)) as [->|Hne].
  - rewrite lookup_insert_eq. by intros [= <-].
  - rewrite lookup_insert_ne by done. apply Hfl.
Qed.

Lemma flagExact_handleDataPacket packet driver w w' ret :
  flagExact w → handleDataPacket packet driver w = Ret (w', ret) →
  flagExact w'.
Proof.
  intros Hfl Hh.
  destruct (handleDataPacket_Ret _ _ _ _ _ Hh)
    as (w1 & op & m & msg & Hf & Hm & Hid & Hcase).
  pose proof (flagExact_findOrCreate _ _ _ _ _ Hfl Hf) as Hfl1.
  pose proof (Hfl1 m msg Hm) as Hmsg. simpl in Hmsg, Hcase.
  unfold bufferFor, sourceFor in Hcase.
  destruct (InboundMessage.fullMessageReceived msg).
  { destruct Hcase as [_ ->].
    destruct (InboundMessage.message msg) as [buf|]; [|done].
    eapply (flagExact_store w1); [done| |reflexivity]. done. }
  destruct Hcase as (s & _ & _ & _ & Hcase).
  case_decide as Hocc; destruct Hcase as [_ ->].
  - destruct (InboundMessage.message msg) as [buf|]; [|set_solver].
    eapply (flagExact_store w1); [done| |reflexivity]. done.
  - eapply (flagExact_store w1); [done| |reflexivity]. done.
Qed.

Lemma flagExact_handleDataPackets packets driver w w' rets :
  flagExact w → handleDataPackets packets driver w = Ret (w', rets) →
  flagExact w'.
Proof.
  revert w rets. induction packets as [|packet rest IH]; intros w rets Hfl Hh.
  - simpl in Hh. by injection Hh as <- _.
  - simpl in Hh.
    apply bind_Ret_inv in Hh as ([w1 ret] & Hstep & Hh).
    apply bind_Ret_inv in Hh as ([w2 rets'] & Hrest & Hh).
    injection Hh as <- _.
    eapply IH; [|exact Hrest]. by eapply flagExact_handleDataPacket.
Qed.

End flag_facts.

(** X8: the completion flag is exact.  From a Receiver whose flags say
    what the buffers hold (a new Receiver, for one), after any sequence of
    returning calls of [handleDataPacket] they still do: a message is
    marked fully received exactly when its buffer is constructed and the
    32-bit product PACKET_DATA_LENGTH * getNumPackets() is at least its
    rawLength, whichever slots the packets it holds are in. *)
Theorem handleDataPackets_flag_exact {C : Constants}
    packets driver w w' rets :
  flagExact w →
  handleDataPackets packets driver w = Ret (w', rets) →
  flagExact w'
  ∧ ∀ id,
      isFull id w' = true ↔
      ∃ msg buf,
        messageOf id w' = Some msg
        ∧ InboundMessage.message msg = Some buf
        ∧ rawLength buf ≤ wrap32 (PACKET_DATA_LENGTH buf * getNumPackets buf).
Proof.
  intros Hfl Hrun.
  pose proof (flagExact_handleDataPackets _ _ _ _ _ Hfl Hrun) as Hfl'.
  split; [done|]. intros id. unfold isFull, messageOf.
  destruct (findMessage id w') as [m|]; simpl.
  2:{ split; [done|]. by intros (? & ? & ? & _). }
  destruct (messagePool w' !! m) as [msg|] eqn:Hm.
  2:{ split; [done|]. by intros (? & ? & ? & _). }
  rewrite (Hfl' m msg Hm). simpl.
  destruct (InboundMessage.message msg) as [buf|] eqn:Hbuf.
  - rewrite bool_decide_eq_true. split.
    + intros Hle. by exists msg, buf.
    + intros (? & buf' & [= <-] & Hbuf' & Hle). congruence.
  - split; [done|]. intros (? & ? & [= <-] & ? & _). congruence.
Qed.

(** [ReceiverTest.handleDataPacket_basic]: 1000 of 1420 bytes after
    packet 1, 2000 after packet 0. *)
Lemma handleDataPackets_flag_exact_witness :
  let w' := Tests.basic_complete in
  flagExact w'
  ∧ ∀ id,
      isFull id w' = true ↔
      ∃ msg buf,
        messageOf id w' = Some msg
        ∧ InboundMessage.message msg = Some buf
        ∧ rawLength buf ≤ wrap32 (PACKET_DATA_LENGTH buf * getNumPackets buf).
Proof.
  apply (handleDataPackets_flag_exact (C := Tests.testConstants)
           [Tests.mockPacket Tests.id_42_32_22 1;
            Tests.mockPacket Tests.id_42_32_22 1;
            Tests.mockPacket Tests.id_42_32_22 0]
           Tests.mockDriver Tests.basic Tests.basic_complete
           [None; None; Some 0%nat]).
  - apply (bool_decide_unpack _). vm_compute. exact I.
  - vm_compute. reflexivity.
Defined.

(** ** Replayed packets *)

Section replay_facts.
Context {C : Constants}.

(** The message of another id is not touched by a returning call. *)
Lemma handleDataPacket_other_message packet driver w w' ret id' msg' :
  handleDataPacket packet driver w = Ret (w', ret) →
  id' ≠ messageId (payload packet) →
  messageOf id' w = Some msg' →
  InboundMessage.id msg' = id' →
  messageOf id' w' = Some msg'.
Proof.
  intros Hh Hne Hmo Hid'.
  destruct (handleDataPacket_Ret _ _ _ _ _ Hh)
    as (w1 & op & m & msg & Hf & Hm & Hid & Hcase).
  unfold messageOf in Hmo.
  destruct (findMessage id' w) as [m'|] eqn:Hfm'; [|done]. simpl in Hmo.
  rewrite (messageOf_eq _ _ m') by (by eapply handleDataPacket_findMessage).
  assert (m ≠ m' ∧ messagePool w1 !! m' = Some msg') as [Hmne Hm1].
  { destruct (findOrCreate_Ret _ _ _ _ _ Hf) as [_ [[_ ->]|(_&_&Hnone&->)]].
    - split; [|done]. intros ->. congruence.
    - assert (m ≠ m') by congruence. split; [done|]. simpl.
      by rewrite lookup_insert_ne. }
  simpl in Hcase. destruct (InboundMessage.fullMessageReceived msg).
  { destruct Hcase as [_ ->]. simpl. by rewrite lookup_insert_ne. }
  destruct Hcase as (s & _ & _ & _ & Hcase).
  case_decide; destruct Hcase as [_ ->]; simpl; by rewrite lookup_insert_ne.
Qed.

(** A packet that went through a returning call has been received. *)
Lemma received_after packet driver w w' ret :
  handleDataPacket packet driver w = Ret (w', ret) → received packet w'.
Proof.
  intros Hh.
  destruct (handleDataPacket_Ret _ _ _ _ _ Hh)
    as (w1 & op & m & msg & Hf & Hm & Hid & Hcase).
  pose proof (findOrCreate_findMessage _ _ _ _ _ Hf) as Hfm.
  unfold received. simpl in Hcase.
  destruct (InboundMessage.fullMessageReceived msg).
  { destruct Hcase as [_ ->]. eexists _, _.
    rewrite (messageOf_eq _ _ m) by done. simpl. rewrite lookup_insert_eq.
    split; [done|]. simpl. auto. }
  destruct Hcase as (s & Hs & Hstr & Hlen & Hcase).
  case_decide as Hocc; destruct Hcase as [_ ->]; eexists _, _;
    rewrite (messageOf_eq _ _ m) by done; simpl; rewrite lookup_insert_eq;
    (split; [done|]); simpl; (split; [done|]); (split; [done|]); right;
    exists s; (split; [done|]); (split; [done|]).
  - done.
  - unfold setPacket. rewrite decide_False by done. simpl.
    split; [done|]. set_solver.
Qed.

(** A received packet stays received through any returning call. *)
Lemma received_kept packet other driver w w' ret :
  received packet w →
  handleDataPacket other driver w = Ret (w', ret) →
  received packet w'.
Proof.
  intros (msg0 & buf0 & Hmo & Hid0 & Hbuf0 & Hor) Hh.
  destruct (decide (messageId (payload packet) = messageId (payload other)))
    as [Heq|Hne].
  2:{ exists msg0, buf0. split; [|done].
      by eapply handleDataPacket_other_message. }
  destruct (handleDataPacket_Ret _ _ _ _ _ Hh)
    as (w1 & op & m & msg & Hf & Hm & Hid & Hcase).
  pose proof (findOrCreate_findMessage _ _ _ _ _ Hf) as Hfm.
  rewrite <- Heq in Hf, Hfm, Hcase, Hid.
  destruct (findOrCreate_messageOf _ _ _ _ _ _ Hf Hm)
    as [(->&_&Hmo')|(_&Hnone&_)]; [|congruence].
  assert (msg = msg0) as -> by congruence.
  unfold received. simpl in Hcase. unfold bufferFor, sourceFor in Hcase.
  rewrite Hbuf0 in Hcase.
  destruct (InboundMessage.fullMessageReceived msg0) eqn:Hfull.
  { destruct Hcase as [_ ->]. eexists _, _.
    rewrite (messageOf_eq _ _ m) by done. simpl. rewrite lookup_insert_eq.
    split; [done|]. simpl. auto. }
  destruct Hor as [?|(s0 & Hs0 & Hstr0 & Hlen0 & Hocc0)]; [done|].
  destruct Hcase as (s & Hs & _ & _ & Hcase).
  assert (s = s0) as -> by congruence.
  case_decide as Hocc; destruct Hcase as [_ ->]; eexists _, _;
    rewrite (messageOf_eq _ _ m) by done; simpl; rewrite lookup_insert_eq;
    (split; [done|]); simpl; (split; [done|]); (split; [done|]); right;
    exists s0; (split; [done|]); (split; [done|]).
  - done.
  - unfold setPacket. rewrite decide_False by done. simpl.
    split; [done|]. set_solver.
Qed.

Lemma received_kept_run packet packets driver w w' rets :
  received packet w →
  handleDataPackets packets driver w = Ret (w', rets) →
  received packet w'.
Proof.
  revert w rets. induction packets as [|other rest IH]; intros w rets Hr Hh.
  - simpl in Hh. by injection Hh as <- _.
  - simpl in Hh.
    apply bind_Ret_inv in Hh as ([w1 ret] & Hstep & Hh).
    apply bind_Ret_inv in Hh as ([w2 rets'] & Hrest & Hh).
    injection Hh as <- _.
    eapply IH; [|exact Hrest]. by eapply received_kept.
Qed.

(** A received packet that comes again is dropped: the call returns
    nullptr and only releases the packet. *)
Lemma received_dropped packet driver w :
  received packet w →
  handleDataPacket packet driver w = Ret (release packet w, None).
Proof.
  intros (msg & buf & Hmo & Hid & Hbuf & Hor).
  destruct (InboundMessage.fullMessageReceived msg) eqn:Hfull.
  { apply handleDataPacket_completed. exists msg. eauto. }
  destruct Hor as [?|(s & Hs & Hstr & Hlen & Hocc)]; [done|].
  unfold messageOf in Hmo.
  destruct (findMessage _ w) as [m|] eqn:Hfm; [|done]. simpl in Hmo.
  unfold handleDataPacket. rewrite (findOrCreate_found _ _ _ Hfm).
  simpl. rewrite Hmo. simpl. rewrite bool_decide_eq_true_2 by done. simpl.
  rewrite Hbuf, Hfull, Hs. simpl.
  rewrite (bool_decide_eq_true_2 _ Hstr). simpl.
  rewrite (bool_decide_eq_true_2 _ Hlen). simpl.
  unfold setPacket. rewrite decide_True by done. do 2 f_equal.
  rewrite set_messagePool_id; [done|].
  rewrite Hmo. f_equal. destruct msg; simpl in *; congruence.
Qed.

End replay_facts.

(** X9: duplicates are dropped whenever they come.  A DATA packet that
    went through a returning call of [handleDataPacket] and comes again,
    after any further sequence of returning calls, makes the call return
    nullptr and change nothing but the driver's record of released
    packets: no message, no map and no Scheduler call is affected. *)
Theorem handleDataPacket_replay {C : Constants}
    packet packets driver w0 w1 ret w2 rets :
  handleDataPacket packet driver w0 = Ret (w1, ret) →
  handleDataPackets packets driver w1 = Ret (w2, rets) →
  handleDataPacket packet driver w2 = Ret (release packet w2, None).
Proof.
  intros Hfirst Hrun. apply received_dropped.
  eapply received_kept_run; [|exact Hrun]. by eapply received_after.
Qed.

(** [ReceiverTest.handleDataPacket_basic]: packet 1, then packet 0, then
    packet 1 again. *)
Lemma handleDataPacket_replay_witness :
  let packet := Tests.mockPacket Tests.id_42_32_22 1 in
  let w2 := Tests.after (Tests.mockPacket Tests.id_42_32_22 0) Tests.basic_after_1 in
  handleDataPacket (C := Tests.testConstants) packet Tests.mockDriver w2
  = Ret (release packet w2, None).
Proof.
  apply (handleDataPacket_replay (C := Tests.testConstants)
           (Tests.mockPacket Tests.id_42_32_22 1)
           [Tests.mockPacket Tests.id_42_32_22 0] Tests.mockDriver
           Tests.basic Tests.basic_after_1 None
           (Tests.after (Tests.mockPacket Tests.id_42_32_22 0) Tests.basic_after_1)
           [Some 0%nat]).
  - vm_compute. reflexivity.
  - vm_compute. reflexivity.
Defined.

(** ** The order of the received-messages FIFO *)

Section fifo_facts.
Context {C : Constants}.

(** A live pool object keeps its id through a returning call. *)
Lemma handleDataPacket_id_kept packet driver w w' ret m0 msg0 :
  handleDataPacket packet driver w = Ret (w', ret) →
  messagePool w !! m0 = Some msg0 →
  ∃ msg', messagePool w' !! m0 = Some msg'
        ∧ InboundMessage.id msg' = InboundMessage.id msg0.
Proof.
  intros Hh Hm0.
  destruct (handleDataPacket_Ret _ _ _ _ _ Hh)
    as (w1 & op & m & msg & Hf & Hm & Hid & Hcase).
  assert (messagePool w1 !! m0 = Some msg0) as Hm1.
  { destruct (findOrCreate_Ret _ _ _ _ _ Hf) as [_ [[_ ->]|(_&_&Hnone&->)]];
      [done|].
    simpl. rewrite lookup_insert_ne; [done|congruence]. }
  assert (∃ msg', messagePool w' = <[m := msg']> (messagePool w1)
                ∧ InboundMessage.id msg' = InboundMessage.id msg)
    as (msg' & -> & Hid').
  { simpl in Hcase. destruct (InboundMessage.fullMessageReceived msg).
    { destruct Hcase as [_ ->]. by eexists. }
    destruct Hcase as (s & _ & _ & _ & Hcase).
    case_decide; destruct Hcase as [_ ->]; by eexists. }
  destruct (decide (m = m0)) as [->|Hne].
  - exists msg'. rewrite lookup_insert_eq. split; [done|]. congruence.
  - exists msg0. by rewrite lookup_insert_ne.
Qed.

Lemma handleDataPackets_id_kept packets driver w w' rets m0 msg0 :
  handleDataPackets packets driver w = Ret (w', rets) →
  messagePool w !! m0 = Some msg0 →
  ∃ msg', messagePool w' !! m0 = Some msg'
        ∧ InboundMessage.id msg' = InboundMessage.id msg0.
Proof.
  revert w rets msg0.
  induction packets as [|packet rest IH]; intros w rets msg0 Hrun Hm0.
  - simpl in Hrun. injection Hrun as <- _. eauto.
  - simpl in Hrun.
    apply bind_Ret_inv in Hrun as ([w1 ret] & Hstep & Hrun).
    apply bind_Ret_inv in Hrun as ([w2 rets'] & Hrest & Hrun).
    injection Hrun as <- _.
    destruct (handleDataPacket_id_kept _ _ _ _ _ _ _ Hstep Hm0)
      as (msg1 & Hm1 & Hid1).
    destruct (IH _ _ _ Hrest Hm1) as (msg2 & Hm2 & Hid2).
    exists msg2. split; [done|]. congruence.
Qed.

(** After a returning call the message of the packet's id is live and
    carries that id. *)
Lemma handleDataPacket_id_stored packet driver w w' ret :
  handleDataPacket packet driver w = Ret (w', ret) →
  ∃ m msg', findMessage (messageId (payload packet)) w' = Some m
          ∧ messagePool w' !! m = Some msg'
          ∧ InboundMessage.id msg' = messageId (payload packet).
Proof.
  intros Hh.
  destruct (handleDataPacket_Ret _ _ _ _ _ Hh)
    as (w1 & op & m & msg & Hf & Hm & Hid & Hcase).
  pose proof (findOrCreate_findMessage _ _ _ _ _ Hf) as Hfm.
  exists m. simpl in Hcase.
  destruct (InboundMessage.fullMessageReceived msg).
  { destruct Hcase as [_ ->]. eexists. split; [done|]. simpl.
    by rewrite lookup_insert_eq. }
  destruct Hcase as (s & _ & _ & _ & Hcase).
  case_decide; destruct Hcase as [_ ->]; eexists; (split; [done|]); simpl;
    by rewrite lookup_insert_eq.
Qed.

End fifo_facts.

(** X10: the received-messages FIFO is in order of first arrival.  Over any
    sequence of calls of [handleDataPacket] that return, the FIFO grows by
    one message for each id that was neither registered nor unregistered
    before, in the order in which these ids come first in the sequence;
    each such message is the unregistered message of its id after the
    sequence, is live and carries that id. *)
Theorem handleDataPackets_arrival_order {C : Constants}
    packets driver w w' rets :
  handleDataPackets packets driver w = Ret (w', rets) →
  ∃ pushed,
    receivedMessages w' = receivedMessages w ++ pushed
    ∧ Forall2 (λ id m,
                 unregisteredMessages w' !! id = Some m
                 ∧ InboundMessage.id <$> messagePool w' !! m = Some id)
              (newIds (knownIds w) packets) pushed.
Proof.
  revert w rets. induction packets as [|packet rest IH]; intros w rets Hrun.
  - simpl in Hrun. injection Hrun as <- _. exists []. simpl.
    by rewrite app_nil_r.
  - simpl in Hrun.
    apply bind_Ret_inv in Hrun as ([w1 ret] & Hstep & Hrun).
    apply bind_Ret_inv in Hrun as ([w2 rets'] & Hrest & Hrun).
    injection Hrun as <- _.
    destruct (IH _ _ Hrest) as (pushed & Hfifo & Hall).
    pose proof (handleDataPacket_enqueue_knownIds _ _ _ _ _ Hstep) as Hknown.
    rewrite Hknown in Hall.
    destruct (handleDataPacket_enqueue _ _ _ _ _ Hstep)
      as [_ [(Hk & Hfifo1 & _)|(Hk & m & _ & Hfifo1 & Hun1 & _)]].
    + exists pushed. rewrite Hfifo, Hfifo1. split; [done|].
      cbn [newIds]. rewrite decide_True by done.
      replace (knownIds w ∪ {[messageId (payload packet)]})
        with (knownIds w) in Hall by set_solver.
      done.
    + exists (m :: pushed). rewrite Hfifo, Hfifo1, <- app_assoc.
      split; [done|].
      cbn [newIds]. rewrite decide_False by done.
      rewrite (union_comm_L {[messageId (payload packet)]}).
      constructor; [|done].
      destruct (handleDataPackets_enqueue _ _ _ _ _ Hrest) as [Hsub _].
      assert (unregisteredMessages w1 !! messageId (payload packet) = Some m)
        as Hm1 by (rewrite Hun1; apply lookup_insert_eq).
      split; [by eapply lookup_weaken|].
      destruct (handleDataPacket_id_stored _ _ _ _ _ Hstep)
        as (m' & msg1 & Hfm & Hpool1 & Hid1).
      assert (m' = m) as ->.
      { unfold findMessage in Hfm.
        destruct (handleDataPacket_enqueue _ _ _ _ _ Hstep) as [Hreg _].
        apply unknown_knownIds, known_false in Hk as [Hnone _].
        rewrite Hreg, Hnone in Hfm. congruence. }
      destruct (handleDataPackets_id_kept _ _ _ _ _ _ _ Hrest Hpool1)
        as (msg2 & -> & Hid2).
      simpl. congruence.
Qed.

(** Packets of two unregistered messages, interleaved: (42, 32, 22) comes
    first, (42, 32, 23) second. *)
Lemma handleDataPackets_arrival_order_witness :
  let other := mkMessageId 42 32 23 in
  let packets :=
    [Tests.mockPacket Tests.id_42_32_22 1; Tests.mockPacket other 0;
     Tests.mockPacket Tests.id_42_32_22 0] in
  let w' := Tests.after (Tests.mockPacket Tests.id_42_32_22 0)
              (Tests.after (Tests.mockPacket other 0) Tests.unregistered) in
  ∃ pushed,
    receivedMessages w' = receivedMessages Tests.empty ++ pushed
    ∧ Forall2 (λ id m,
                 unregisteredMessages w' !! id = Some m
                 ∧ InboundMessage.id <$> messagePool w' !! m = Some id)
              (newIds (knownIds Tests.empty) packets) pushed.
Proof.
  apply (handleDataPackets_arrival_order (C := Tests.testConstants)
           [Tests.mockPacket Tests.id_42_32_22 1;
            Tests.mockPacket (mkMessageId 42 32 23) 0;
            Tests.mockPacket Tests.id_42_32_22 0]
           Tests.mockDriver Tests.empty _ [None; None; None]).
  vm_compute. reflexivity.
Defined.

(** X11: [receiveMessage] hands the FIFO out front first and touches
    nothing else.  Called [n] times in a row it returns the first [n]
    queued messages in their order, then nullptr at every call once the
    FIFO is empty, and leaves the world as it was but for the FIFO, which
    has lost what was returned. *)
Theorem receiveMessages_drain n w :
  receiveMessages n w
  = (set_receivedMessages (λ _, drop n (receivedMessages w)) w,
     (Some <$> take n (receivedMessages w))
       ++ replicate (n - length (receivedMessages w)) None).
Proof.
  revert w. induction n as [|n IH]; intros w.
  - simpl. rewrite drop_0. by destruct w.
  - cbn [receiveMessages]. unfold receiveMessage.
    destruct (receivedMessages w) as [|message rest] eqn:Hq.
    + rewrite IH, Hq. rewrite drop_nil, take_nil. simpl.
      by rewrite Nat.sub_0_r.
    + rewrite IH. simpl. done.
Qed.

(** ** A message that is created, handed out and given up *)

Section lifecycle_facts.
Context {C : Constants}.

(** What a returning call does for an id that was not known: one fresh
    pool object carrying the id, made the unregistered message of the id
    and pushed onto the FIFO. *)
Lemma handleDataPacket_new packet driver w w' ret :
  known (messageId (payload packet)) w = false →
  handleDataPacket packet driver w = Ret (w', ret) →
  ∃ m msg',
    messagePool w !! m = None
    ∧ messagePool w' = <[m := msg']> (messagePool w)
    ∧ InboundMessage.id msg' = messageId (payload packet)
    ∧ unregisteredMessages w'
      = <[messageId (payload packet) := m]> (unregisteredMessages w)
    ∧ receivedMessages w' = receivedMessages w ++ [m]
    ∧ registeredOps w' = registeredOps w
    ∧ ops w' = ops w.
Proof.
  intros Hk Hh.
  destruct (handleDataPacket_Ret _ _ _ _ _ Hh)
    as (w1 & op & m & msg & Hf & Hm & Hid & Hcase).
  destruct (findOrCreate_Ret _ _ _ _ _ Hf) as [_ [[Hfm _]|(_&_&Hnone&->)]].
  { apply known_findMessage in Hfm. congruence. }
  exists m. simpl in Hcase.
  destruct (InboundMessage.fullMessageReceived msg).
  { destruct Hcase as [_ ->]. eexists. simpl.
    by rewrite insert_insert_eq. }
  destruct Hcase as (s & _ & _ & _ & Hcase).
  case_decide; destruct Hcase as [_ ->]; eexists; simpl;
    by rewrite insert_insert_eq.
Qed.

End lifecycle_facts.

(** X12: no function of the Receiver but [receiveMessage] takes a message
    off the FIFO.  When the first packet of an unknown id has queued its
    message, and the id is then registered to a live op and the op
    dropped before any call of [receiveMessage], both calls return, the
    maps and the pool are as they were before the packet came, and the
    next [receiveMessage] hands out the message although the pool has
    destroyed it: the message handed out is the one the packet created. *)
Theorem receiveMessage_after_dropOp {C : Constants}
    packet driver op w w1 ret :
  known (messageId (payload packet)) w = false →
  receivedMessages w = [] →
  is_Some (ops w !! op) →
  handleDataPacket packet driver w = Ret (w1, ret) →
  ∃ w2 w3 m,
    registerOp (messageId (payload packet)) op w1 = Ret w2
    ∧ dropOp op w2 = Ret w3
    ∧ registeredOps w3 = registeredOps w
    ∧ unregisteredMessages w3 = unregisteredMessages w
    ∧ messagePool w3 = messagePool w
    ∧ messagePool w3 !! m = None
    ∧ receiveMessage w3 = (set_receivedMessages (λ _, []) w3, Some m)
    ∧ unregisteredMessages w1 !! messageId (payload packet) = Some m.
Proof.
  intros Hk Hq [o Ho] Hh.
  destruct (handleDataPacket_new _ _ _ _ _ Hk Hh)
    as (m & msg' & Hnone & Hpool & Hid & Hun & Hfifo & Hreg & Hops).
  apply known_false in Hk as [Hkreg Hkun].
  eexists _, _, m. split.
  { unfold registerOp. rewrite Hun, lookup_insert_eq. simpl.
    rewrite Hops, Ho. simpl. reflexivity. }
  split.
  { unfold dropOp. simpl. rewrite lookup_insert_eq. simpl.
    rewrite Hpool, lookup_insert_eq. simpl. reflexivity. }
  simpl. rewrite Hreg, Hkreg, Hid, Hun, Hpool.
  split; [by rewrite delete_insert_eq, delete_id|].
  split; [by rewrite delete_insert_eq, delete_id|].
  split; [by rewrite delete_insert_eq, delete_id|].
  split; [apply lookup_delete_eq|].
  split; [|apply lookup_insert_eq].
  unfold receiveMessage. simpl. rewrite Hfifo, Hq. reflexivity.
Qed.

(** The first packet of (42, 32, 22) at a Receiver that knows nothing,
    then [registerOp] and [dropOp] on op 0. *)
Lemma receiveMessage_after_dropOp_witness :
  ∃ w2 w3 m,
    registerOp Tests.id_42_32_22 0%nat Tests.unregistered = Ret w2
    ∧ dropOp 0%nat w2 = Ret w3
    ∧ registeredOps w3 = registeredOps Tests.empty
    ∧ unregisteredMessages w3 = unregisteredMessages Tests.empty
    ∧ messagePool w3 = messagePool Tests.empty
    ∧ messagePool w3 !! m = None
    ∧ receiveMessage w3 = (set_receivedMessages (λ _, []) w3, Some m)
    ∧ unregisteredMessages Tests.unregistered !! Tests.id_42_32_22 = Some m.
Proof.
  apply (receiveMessage_after_dropOp (C := Tests.testConstants)
           (Tests.mockPacket Tests.id_42_32_22 1) Tests.mockDriver 0%nat
           Tests.empty Tests.unregistered None).
  - vm_compute. reflexivity.
  - reflexivity.
  - eexists. vm_compute. reflexivity.
  - vm_compute. reflexivity.
Defined.

(** X13: a message that is created by a packet, handed out by
    [receiveMessage] and given up with [dropMessage] leaves nothing
    behind.  For the first packet of an unknown id arriving when the FIFO
    is empty, [receiveMessage] returns the message the packet created,
    [dropMessage] on it returns, and the two maps, the FIFO, the pool and
    the operation contexts are then what they were before the packet
    came. *)
Theorem receiveMessage_dropMessage {C : Constants}
    packet driver w w1 ret :
  known (messageId (payload packet)) w = false →
  receivedMessages w = [] →
  handleDataPacket packet driver w = Ret (w1, ret) →
  ∃ m w2 w3,
    receiveMessage w1 = (w2, Some m)
    ∧ unregisteredMessages w1 !! messageId (payload packet) = Some m
    ∧ dropMessage m w2 = Ret w3
    ∧ registeredOps w3 = registeredOps w
    ∧ unregisteredMessages w3 = unregisteredMessages w
    ∧ receivedMessages w3 = receivedMessages w
    ∧ messagePool w3 = messagePool w
    ∧ ops w3 = ops w.
Proof.
  intros Hk Hq Hh.
  destruct (handleDataPacket_new _ _ _ _ _ Hk Hh)
    as (m & msg' & Hnone & Hpool & Hid & Hun & Hfifo & Hreg & Hops).
  apply known_false in Hk as [Hkreg Hkun].
  exists m. eexists _, _. split.
  { unfold receiveMessage. rewrite Hfifo, Hq. simpl. reflexivity. }
  split; [rewrite Hun; apply lookup_insert_eq|].
  split.
  { unfold dropMessage. simpl. rewrite Hpool, lookup_insert_eq. simpl.
    reflexivity. }
  simpl. rewrite Hreg, Hid, Hun, Hpool, Hq, Hops.
  split; [done|]. split; [by rewrite delete_insert_eq, delete_id|].
  split; [done|]. split; [by rewrite delete_insert_eq, delete_id|]. done.
Qed.

(** [ReceiverTest.handleDataPacket_newUnregistered], then
    [receiveMessage] and [dropMessage]. *)
Lemma receiveMessage_dropMessage_witness :
  ∃ m w2 w3,
    receiveMessage Tests.unregistered = (w2, Some m)
    ∧ unregisteredMessages Tests.unregistered !! Tests.id_42_32_22 = Some m
    ∧ dropMessage m w2 = Ret w3
    ∧ registeredOps w3 = registeredOps Tests.empty
    ∧ unregisteredMessages w3 = unregisteredMessages Tests.empty
    ∧ receivedMessages w3 = receivedMessages Tests.empty
    ∧ messagePool w3 = messagePool Tests.empty
    ∧ ops w3 = ops Tests.empty.
Proof.
  apply (receiveMessage_dropMessage (C := Tests.testConstants)
           (Tests.mockPacket Tests.id_42_32_22 1) Tests.mockDriver
           Tests.empty Tests.unregistered None).
  - vm_compute. reflexivity.
  - reflexivity.
  - vm_compute. reflexivity.
Defined.
